(** * CommAI: the transcript scorers of the speaking-practice components

    A shallow embedding of the two React components of the repository:
    - [App]  : [SpeakingPractice] (src/App.jsx), whose [generateSuggestions]
               is the base scorer and whose [stopRecording] stores a session;
    - [Pro]  : [PracticeDemoPro], whose [analyzeTranscript] is the extended
               analysis (filler tokens, repeated words, grammar service,
               fluency score, tone).

    JavaScript strings are modelled as [string]: a sequence of code units,
    here the code units 0..255 (the Latin-1 block), which is where every
    character the two scorers look for lives.  The feedback messages are
    kept as the UTF-8 bytes of the source literals.  Numbers that the code
    only ever uses as integers are [Z] or [nat]. *)

From Stdlib Require Import ZArith NArith Ascii String List Bool Lia DecimalString.
From Stdlib Require Import Floats Uint63.
From stdpp Require Import base option list gmap strings.

(** ** Built-ins of the language that the components call *)

Module JsString.

Definition code (c : ascii) : N := N_of_ascii c.

Definition between (lo hi n : N) : bool := ((lo <=? n) && (n <=? hi))%N.

(** [\w] of a pattern without the [u] flag: [A-Za-z0-9_]. *)
Definition isWordChar (c : ascii) : bool :=
  between 48 57 (code c) || between 65 90 (code c) || between 97 122 (code c)
  || (code c =? 95)%N.

(** [\s], and what [trim] strips: TAB, LF, VT, FF, CR, SPACE and NO-BREAK
    SPACE are the white space and line terminators below 256. *)
Definition isWhiteSpace (c : ascii) : bool :=
  between 9 13 (code c) || (code c =? 32)%N || (code c =? 160)%N.

(** [String.prototype.toLowerCase] on one code unit: A-Z, and the Latin-1
    capitals 0xC0-0xDE except the multiplication sign 0xD7. *)
Definition toLowerCaseChar (c : ascii) : ascii :=
  let n := code c in
  if between 65 90 n || (between 192 222 n && negb (n =? 215)%N)
  then ascii_of_N (n + 32) else c.

Fixpoint toLowerCase (s : string) : string :=
  match s with
  | EmptyString => EmptyString
  | String c s' => String (toLowerCaseChar c) (toLowerCase s')
  end.

(** [Canonicalize] of the pattern semantics for the [i] flag without [u]:
    the code unit of [toUpperCase] of the character when that is a single
    code unit.  Micro sign and y-diaeresis go above 255, sharp s upper-cases
    to two characters and is kept.  (The rule that keeps a character at or
    above 128 whose upper case is below 128 has no instance below 256.) *)
Definition canonicalize (c : ascii) : N :=
  let n := code c in
  if between 97 122 n then (n - 32)%N
  else if between 224 254 n && negb (n =? 247)%N then (n - 32)%N
  else if (n =? 181)%N then 924%N
  else if (n =? 255)%N then 376%N
  else n.

(** [s.includes(sub)]: some suffix of [s] starts with [sub]. *)
Fixpoint includes (s sub : string) : bool :=
  String.prefix sub s ||
  match s with
  | EmptyString => false
  | String _ s' => includes s' sub
  end.

(** [take n s] and [drop n s]: the first [n] code units, and the rest. *)
Fixpoint take (n : nat) (s : string) : string :=
  match n, s with
  | S n', String c s' => String c (take n' s')
  | _, _ => EmptyString
  end.

Fixpoint drop (n : nat) (s : string) : string :=
  match n, s with
  | S n', String _ s' => drop n' s'
  | _, _ => s
  end.

(** [s.substring(start, end)] on integers: both bounds are clamped to
    [0, length], and swapped when [start] is the larger. *)
Definition substring (s : string) (start end_ : Z) : string :=
  let len := Z.of_nat (String.length s) in
  let finalStart := Z.min (Z.max start 0) len in
  let finalEnd := Z.min (Z.max end_ 0) len in
  let from := Z.min finalStart finalEnd in
  let to := Z.max finalStart finalEnd in
  take (Z.to_nat (to - from)) (drop (Z.to_nat from) s).

(** [s.split(" ")]: the pieces between single spaces, empty ones kept;
    the empty text gives one empty piece. *)
Fixpoint split_on (sep : ascii) (cur : string) (s : string) : list string :=
  match s with
  | EmptyString => [cur]
  | String c s' =>
      if Ascii.eqb c sep then cur :: split_on sep EmptyString s'
      else split_on sep (cur +:+ String c EmptyString) s'
  end.

Definition split_space (s : string) : list string :=
  split_on " "%char EmptyString s.

(** [s.split(/\s+/)]: the pieces between maximal runs of white space.  A
    text that starts (ends) with white space gets an empty first (last)
    piece; the empty text gives one empty piece.  [in_gap] says that the
    previous character belonged to a separator. *)
Fixpoint split_ws_from (in_gap : bool) (cur : string) (s : string) : list string :=
  match s with
  | EmptyString => [cur]
  | String c s' =>
      if isWhiteSpace c
      then (if in_gap then split_ws_from true EmptyString s'
            else cur :: split_ws_from true EmptyString s')
      else split_ws_from false (cur +:+ String c EmptyString) s'
  end.

Definition split_ws (s : string) : list string :=
  split_ws_from false EmptyString s.

(** [s.trim()]: white space removed at both ends. *)
Fixpoint trimStart (s : string) : string :=
  match s with
  | String c s' => if isWhiteSpace c then trimStart s' else s
  | EmptyString => EmptyString
  end.

Fixpoint trimEnd (s : string) : string :=
  match s with
  | EmptyString => EmptyString
  | String c s' =>
      match trimEnd s' with
      | EmptyString => if isWhiteSpace c then EmptyString else String c EmptyString
      | t => String c t
      end
  end.

Definition trim (s : string) : string := trimEnd (trimStart s).

(** The decimal digits of a count, as a template literal prints it. *)
Definition of_nat (n : nat) : string := NilZero.string_of_uint (Nat.to_uint n).

End JsString.

(** ** Patterns: the fragment [\b], literal characters, flags [gi] *)

Module JsRegExp.
Import JsString.

Inductive node : Type :=
  | WordBoundary
  | Char (c : ascii).

Definition isWordAt (o : option ascii) : bool :=
  match o with
  | Some c => isWordChar c
  | None => false
  end.

Definition first (s : string) : option ascii :=
  match s with
  | EmptyString => None
  | String c _ => Some c
  end.

(** One attempt at one position: [prev] is the character before the
    position, [s] the text from the position on.  The result is the number
    of characters the match takes. *)
Fixpoint run (pat : list node) (prev : option ascii) (s : string) : option nat :=
  match pat with
  | [] => Some 0
  | WordBoundary :: pat' =>
      if xorb (isWordAt prev) (isWordAt (first s)) then run pat' prev s else None
  | Char c :: pat' =>
      match s with
      | EmptyString => None
      | String t s' =>
          if (canonicalize c =? canonicalize t)%N
          then S <$> run pat' (Some t) s'
          else None
      end
  end.

(** [text.match(re)] with the [g] flag: attempts at [lastIndex],
    [lastIndex + 1], ...; a match moves [lastIndex] to its end (one further
    when it is empty).  [skip] counts the positions still covered by the last
    match, [idx] is the current index; the result lists where the matches
    start (the array that [match] returns holds one entry per start). *)
Fixpoint match_from (pat : list node) (prev : option ascii) (s : string)
    (skip idx : nat) : list nat :=
  match s with
  | EmptyString =>
      match skip, run pat prev EmptyString with
      | O, Some _ => [idx]
      | _, _ => []
      end
  | String t s' =>
      match skip with
      | S k => match_from pat (Some t) s' k (S idx)
      | O =>
          match run pat prev s with
          | Some n => idx :: match_from pat (Some t) s' (n - 1) (S idx)
          | None => match_from pat (Some t) s' 0 (S idx)
          end
      end
  end.

Definition match_all (pat : list node) (text : string) : list nat :=
  match_from pat None text 0 0.

End JsRegExp.

(** ** Numbers: the one place where a component multiplies by [0.1] *)

Module JsNumber.

(** The binary64 number written [0.1] is [tenth * 2^-55]. *)
Definition tenth : Z := 3602879701896397.

(** Rounding of a non-negative integer to 53 significant bits, to nearest,
    ties to even: what a binary64 operation does to its exact result. *)
Definition round53 (p : Z) : Z :=
  let e := (Z.log2 p - 52)%Z in
  if (e <=? 0)%Z then p
  else
    let q := Z.shiftr p e in
    let r := Z.land p (Z.ones e) in
    let half := Z.shiftl 1 (e - 1) in
    let up := (half <? r)%Z || ((r =? half)%Z && Z.odd q) in
    Z.shiftl (if up then q + 1 else q)%Z e.

(** [n * 0.1] for an integer [n] below 2^53, in units of 2^-55. *)
Definition times_tenth (n : Z) : Z := round53 (n * tenth).

(** [k > n * 0.1] for integers [k] and [n] below 2^53. *)
Definition gt_times_tenth (k n : Z) : bool :=
  (times_tenth n <? k * Z.shiftl 1 55)%Z.

(** The same comparison on the primitive binary64 numbers. *)
Definition float_gt_times_tenth (k n : Z) : bool :=
  PrimFloat.ltb
    (PrimFloat.mul (PrimFloat.of_uint63 (Uint63.of_Z n)) 0x1.999999999999ap-4%float)
    (PrimFloat.of_uint63 (Uint63.of_Z k)).

End JsNumber.

(** ** SpeakingPractice (src/App.jsx) *)

Module App.
Import JsString JsRegExp.

Definition fillerWords : list string :=
  ["uh"; "um"; "like"; "you know"; "actually"; "basically"; "literally"].

(** [new RegExp(`\\b${word}\\b`, "gi")].  The words of the vocabulary are
    made of letters and spaces, which a pattern reads as themselves. *)
Definition word_pattern (word : string) : list node :=
  WordBoundary :: (Char <$> list_ascii_of_string word) ++ [WordBoundary].

(** [(text.match(regex) || []).length] *)
Definition count_matches (text word : string) : nat :=
  length (match_all (word_pattern word) text).

(** The object that [generateSuggestions] builds and returns. *)
Record Suggestions : Type := {
  feedback : list string;
  score : Z;
  fillerStats : gmap string nat;
}.

Definition quote : string := String (ascii_of_nat 34) EmptyString.

Definition filler_message (word : string) (count : nat) : string :=
  "⚠️ You used " +:+ quote +:+ word +:+ quote +:+ " " +:+ of_nat count
  +:+ " time(s). Try reducing it.".

Definition short_message : string :=
  "🗣️ Try speaking in longer sentences with more details.".
Definition ending_message : string :=
  "✍️ Work on finishing sentences with proper endings.".
Definition vocabulary_message : string :=
  "💡 Instead of 'good', try 'excellent', 'fantastic', or 'wonderful'.".
Definition duration_message : string :=
  "⏱️ Try to speak for at least 1 minute for better practice.".
Definition affirmation : string :=
  "✅ Great job! Fluent and clear.".

Definition push (msg : string) (points : Z) (acc : Suggestions) : Suggestions :=
  {| feedback := feedback acc ++ [msg];
     score := (score acc - points)%Z;
     fillerStats := fillerStats acc |}.

Definition start : Suggestions :=
  {| feedback := []; score := 10%Z; fillerStats := ∅ |}.

(** The body of [fillerWords.forEach]. *)
Definition filler_step (text : string) (acc : Suggestions) (word : string)
    : Suggestions :=
  let count := count_matches text word in
  if (0 <? count)%nat then
    {| fillerStats := <[word := count]> (fillerStats acc);
       feedback := feedback acc ++ [filler_message word count];
       score := (score acc - (if (3 <=? count)%nat then 2 else 1))%Z |}
  else acc.

Definition filler_detection (text : string) (acc : Suggestions) : Suggestions :=
  fold_left (filler_step text) fillerWords acc.

Definition short_speech_check (text : string) (acc : Suggestions) : Suggestions :=
  if (length (split_space text) <? 15)%nat then push short_message 2 acc else acc.

(** [/[.?!]/.test(text)] *)
Fixpoint test_ending (text : string) : bool :=
  match text with
  | EmptyString => false
  | String c s =>
      Ascii.eqb c "."%char || Ascii.eqb c "?"%char || Ascii.eqb c "!"%char
      || test_ending s
  end.

Definition sentence_structure_check (text : string) (acc : Suggestions)
    : Suggestions :=
  if negb (test_ending text) then push ending_message 1 acc else acc.

Definition vocabulary_tip (text : string) (acc : Suggestions) : Suggestions :=
  if includes text "good" then push vocabulary_message 0 acc else acc.

Definition duration_encouragement (duration : Z) (acc : Suggestions)
    : Suggestions :=
  if (duration <? 30)%Z then push duration_message 1 acc else acc.

Definition fallback (acc : Suggestions) : Suggestions :=
  if (length (feedback acc) =? 0)%nat then push affirmation 0 acc else acc.

Definition clamp (acc : Suggestions) : Suggestions :=
  if (score acc <? 0)%Z
  then {| feedback := feedback acc; score := 0%Z; fillerStats := fillerStats acc |}
  else acc.

(** The checks in the order of the source, before the fallback. *)
Definition checks (text : string) (duration : Z) : Suggestions :=
  duration_encouragement duration
    (vocabulary_tip text
       (sentence_structure_check text
          (short_speech_check text (filler_detection text start)))).

Definition generateSuggestions (text : string) (duration : Z) : Suggestions :=
  clamp (fallback (checks text duration)).

(** One entry of [sessionHistory]. *)
Record Session : Type := {
  session_text : string;
  session_duration : Z;
  session_feedback : list string;
  session_score : Z;
  session_fillerStats : gmap string nat;
}.

(** The state of the component ([useState]). *)
Record State : Type := {
  isRecording : bool;
  transcript : string;
  sessionHistory : list Session;
  suggestions : list string;
  timer : Z;
}.

(** [stopRecording], a synchronous handler: it reads [transcript] and
    [timer] of the render it belongs to, and [setSessionHistory] gets an
    updater, applied to the history of that moment.  (Stopping the
    recognition service and the interval are outside the state.) *)
Definition stopRecording (st : State) : State :=
  let newSuggestions := generateSuggestions (transcript st) (timer st) in
  {| isRecording := false;
     transcript := transcript st;
     suggestions := feedback newSuggestions;
     sessionHistory :=
       {| session_text := transcript st;
          session_duration := timer st;
          session_feedback := feedback newSuggestions;
          session_score := score newSuggestions;
          session_fillerStats := fillerStats newSuggestions |}
       :: sessionHistory st;
     timer := timer st |}.

End App.

(** ** PracticeDemoPro (the second component) *)

Module Pro.
Import JsString.

Definition fillerWords : list string :=
  ["uh"; "um"; "like"; "you know"; "actually"].

(** [list.includes(w)] *)
Definition includes_string (l : list string) (w : string) : bool :=
  existsb (String.eqb w) l.

(** The first [words.forEach]: [fillerCount++] for a token whose lower case
    is in the vocabulary. *)
Definition count_step (fillerCount : nat) (w : string) : nat :=
  if includes_string fillerWords (toLowerCase w) then S fillerCount else fillerCount.

Definition count_fillers (words : list string) : nat :=
  fold_left count_step words 0%nat.

(** What [wordFrequency] holds under a key: a count, or the text that
    [+ 1] makes of a member inherited from [Object.prototype]. *)
Inductive freq : Type :=
  | Count (n : nat)
  | Text.

(** The own properties of [wordFrequency], in creation order. *)
Fixpoint own (o : list (string * freq)) (key : string) : option freq :=
  match o with
  | [] => None
  | (k, v) :: o' => if String.eqb k key then Some v else own o' key
  end.

Fixpoint assign (o : list (string * freq)) (key : string) (v : freq)
    : list (string * freq) :=
  match o with
  | [] => [(key, v)]
  | (k, v0) :: o' =>
      if String.eqb k key then (k, v) :: o' else (k, v0) :: assign o' key v
  end.

(** The second [words.forEach]:
    [wordFrequency[lw] = (wordFrequency[lw] || 0) + 1].
    An object literal inherits two members with lower-case names.  Reading
    [__proto__] gives an object and writing a text to it changes nothing;
    reading [constructor] before it is an own property gives a function, so
    what is stored is a text, and stays one. *)
Definition frequency_step (o : list (string * freq)) (w : string)
    : list (string * freq) :=
  let lw := toLowerCase w in
  if String.eqb lw "__proto__" then o
  else
    match own o lw with
    | Some (Count n) => assign o lw (Count (n + 1))
    | Some Text => assign o lw Text
    | None =>
        if String.eqb lw "constructor" then assign o lw Text
        else assign o lw (Count 1)
    end.

Definition wordFrequency (words : list string) : list (string * freq) :=
  fold_left frequency_step words [].

(** Keys that are array indices: canonical decimal numerals up to 2^32 - 2. *)
Definition digit (c : ascii) : option N :=
  if between 48 57 (code c) then Some (code c - 48)%N else None.

Fixpoint digits_value (acc : N) (s : string) : option N :=
  match s with
  | EmptyString => Some acc
  | String c s' =>
      match digit c with
      | Some d => digits_value (10 * acc + d)%N s'
      | None => None
      end
  end.

Definition array_index (s : string) : option N :=
  match s with
  | EmptyString => None
  | String c rest =>
      if (code c =? 48)%N && negb (String.eqb rest EmptyString) then None
      else
        match digits_value 0 s with
        | Some v => if (v <=? 4294967294)%N then Some v else None
        | None => None
        end
  end.

Fixpoint insert_index (i : N) (e : string * freq) (l : list (N * (string * freq)))
    : list (N * (string * freq)) :=
  match l with
  | [] => [(i, e)]
  | (j, e') :: l' =>
      if (i <=? j)%N then (i, e) :: l else (j, e') :: insert_index i e l'
  end.

Fixpoint index_entries (o : list (string * freq)) : list (N * (string * freq)) :=
  match o with
  | [] => []
  | (k, v) :: o' =>
      match array_index k with
      | Some i => insert_index i (k, v) (index_entries o')
      | None => index_entries o'
      end
  end.

(** [Object.entries]: array-index keys in ascending order, then the other
    keys in creation order. *)
Definition entries (o : list (string * freq)) : list (string * freq) :=
  (snd <$> index_entries o)
  ++ filter (fun e => array_index (fst e) = None) o.

(** [count > 3]; a text compares as not-a-number. *)
Definition more_than_three (v : freq) : bool :=
  match v with
  | Count n => (3 <? n)%nat
  | Text => false
  end.

Definition repeated (words : list string) : list string :=
  fst <$> filter (fun e => more_than_three (snd e) && (3 <? String.length (fst e))%nat)
            (entries (wordFrequency words)).

(** *** The grammar service *)

(** A match of the response, as the service documents it.  The list of
    replacements may be missing. *)
Record Replacement : Type := { value : string }.

Record Match : Type := {
  offset : Z;
  length : Z;
  message : string;
  replacements : option (list Replacement);
}.

(** What the request can come to: [fetch] rejects, the body is no JSON, or
    there is a JSON value, with or without a list of matches. *)
Inductive Outcome : Type :=
  | NetworkError
  | NotJson
  | Json (matches : option (list Match)).

Record GrammarSuggestion : Type := {
  g_error : string;
  g_suggestion : string;
  g_message : string;
}.

Definition placeholder : string := "—".

(** The callback of [data.matches.map].  [None] is a thrown [TypeError]:
    indexing the replacements of a match that has none. *)
Definition to_suggestion (transcript : string) (m : Match) : option GrammarSuggestion :=
  match replacements m with
  | None => None
  | Some rs =>
      Some {| g_error := substring transcript (offset m) (offset m + length m);
              g_suggestion :=
                match rs with
                | [] => placeholder
                | r :: _ => if String.eqb (value r) EmptyString then placeholder
                            else value r
                end;
              g_message := message m |}
  end.

(** The body of [try]: [None] when anything in it throws. *)
Definition grammar_try (transcript : string) (o : Outcome)
    : option (list GrammarSuggestion) :=
  match o with
  | NetworkError => None
  | NotJson => None
  | Json None => None
  | Json (Some ms) => mapM (to_suggestion transcript) ms
  end.

(** [let grammarSuggestions = []; try { ... } catch (err) { ... }] *)
Definition grammar (transcript : string) (o : Outcome) : list GrammarSuggestion :=
  match grammar_try transcript o with
  | Some l => l
  | None => []
  end.

(** *** The report *)

Record Report : Type := {
  fillerCount : nat;
  repeatedWords : list string;
  grammarSuggestions : list GrammarSuggestion;
  fluencyScore : Z;
  tone : string;
}.

Definition fluency (fillerCount : nat) (words repeatedWords : list string) : Z :=
  let s0 := 10%Z in
  let s1 := if (5 <? fillerCount)%nat then (s0 - 2)%Z else s0 in
  let s2 := if (List.length words <? 10)%nat then (s1 - 2)%Z else s1 in
  let s3 := if (0 <? List.length repeatedWords)%nat then (s2 - 1)%Z else s2 in
  if (s3 <? 0)%Z then 0%Z else s3.

Definition tone_of (fillerCount : nat) (words : list string) : string :=
  if JsNumber.gt_times_tenth (Z.of_nat fillerCount) (Z.of_nat (List.length words))
  then "Hesitant"
  else if (15 <? List.length words)%nat then "Confident"
  else "Neutral".

Definition report (transcript : string) (o : Outcome) : Report :=
  let words := split_ws transcript in
  let fillerCount := count_fillers words in
  let repeatedWords := repeated words in
  {| fillerCount := fillerCount;
     repeatedWords := repeatedWords;
     grammarSuggestions := grammar transcript o;
     fluencyScore := fluency fillerCount words repeatedWords;
     tone := tone_of fillerCount words |}.

(** One entry of [history]. *)
Record Entry : Type := {
  entry_text : string;
  entry_feedback : Report;
  entry_time : string;
}.

(** The state of the component. *)
Record State : Type := {
  transcript : string;
  isRecording : bool;
  feedback : option Report;
  history : list Entry;
}.

(** [recognition.onresult]: the fragments from [resultIndex] on, each
    followed by a space, are joined, and the transcript is the trimmed
    text.  Nothing else gives the transcript a value that is not empty. *)
Definition onresult (fragments : list string) (st : State) : State :=
  let text := fold_left (fun text f => text +:+ f +:+ " ") fragments EmptyString in
  {| transcript := trim text;
     isRecording := isRecording st;
     feedback := feedback st;
     history := history st |}.

(** [analyzeTranscript] is asynchronous.  It reads [transcript] and
    [history] of the render in which it was started ([seen]); the setters
    after the [await] are called with values, so what they write does not
    depend on the state at that later moment ([now]).  [o] is the outcome of
    the request and [time] the clock's text. *)
Definition analyzeTranscript (seen : State) (o : Outcome) (time : string)
    (now : State) : State :=
  if String.eqb (transcript seen) EmptyString then now
  else
    let r := report (transcript seen) o in
    {| feedback := Some r;
       history :=
         history seen
         ++ [{| entry_text := transcript seen;
                entry_feedback := r;
                entry_time := time |}];
       transcript := EmptyString;
       isRecording := isRecording now |}.

(** An analysis with nothing else happening before it completes. *)
Definition analyze (st : State) (o : Outcome) (time : string) : State :=
  analyzeTranscript st o time st.

End Pro.

(** ** Notions of the specification, to compare the code with *)

Module Spec.
Import JsString JsRegExp.

(** A message that is there or not. *)
Definition opt (b : bool) (msg : string) : list string :=
  if b then [msg] else [].

(** The points a filler word costs: 2 from three occurrences on, else 1,
    and nothing when the word does not occur. *)
Definition points (count : nat) : Z :=
  if (0 <? count)%nat then (if (3 <=? count)%nat then 2 else 1)%Z else 0%Z.

Definition total (l : list Z) : Z := fold_right Z.add 0%Z l.

(** The filler messages and points of a list of words, in its order. *)
Definition filler_messages (text : string) (words : list string) : list string :=
  flat_map
    (fun w => opt (0 <? App.count_matches text w)%nat
                (App.filler_message w (App.count_matches text w)))
    words.

Definition filler_points (text : string) (words : list string) : Z :=
  total ((fun w => points (App.count_matches text w)) <$> words).

(** The character before index [i], and the one at it. *)
Definition before (text : string) (i : nat) : option ascii :=
  match i with
  | O => None
  | S j => String.get j text
  end.

(** The word stands at index [i] of the text, whatever the case of the
    letters there, with no word character before or after it. *)
Definition whole_word_at (word text : string) (i : nat) : bool :=
  negb (isWordAt (before text i))
  && String.eqb (toLowerCase (take (String.length word) (drop i text))) word
  && negb (isWordAt (String.get (i + String.length word) text)).

(** The number of case-insensitive whole-word occurrences. *)
Definition occurrences (word text : string) : nat :=
  length (List.filter (whole_word_at word text) (seq 0 (S (String.length text)))).

(** Tokens in the sense of "split on whitespace": the maximal runs of
    characters that are not white space. *)
Definition whitespace_tokens (text : string) : list string :=
  filter (fun w => w <> EmptyString) (split_ws text).

(** The number of occurrences of a character. *)
Fixpoint count_char (c : ascii) (s : string) : nat :=
  match s with
  | EmptyString => 0
  | String d s' => (if Ascii.eqb d c then 1 else 0) + count_char c s'
  end.

(** A tab, for examples. *)
Definition tab : string := String (ascii_of_nat 9) EmptyString.


(** The session that [stopRecording] stores for a transcript and a
    duration, and a recording that ends with them. *)
Definition session_of (p : string * Z) : App.Session :=
  let r := App.generateSuggestions p.1 p.2 in
  {| App.session_text := p.1;
     App.session_duration := p.2;
     App.session_feedback := App.feedback r;
     App.session_score := App.score r;
     App.session_fillerStats := App.fillerStats r |}.

Definition record_session (st : App.State) (p : string * Z) : App.State :=
  App.stopRecording
    {| App.isRecording := true;
       App.transcript := p.1;
       App.sessionHistory := App.sessionHistory st;
       App.suggestions := App.suggestions st;
       App.timer := p.2 |}.

(** The entry that [analyzeTranscript] stores, and an analysis of a
    dictated transcript that completes before the next one starts. *)
Definition entry_of (q : string * Pro.Outcome * string) : Pro.Entry :=
  {| Pro.entry_text := q.1.1;
     Pro.entry_feedback := Pro.report q.1.1 q.1.2;
     Pro.entry_time := q.2 |}.

Definition analyze_session (st : Pro.State) (q : string * Pro.Outcome * string)
    : Pro.State :=
  Pro.analyze
    {| Pro.transcript := q.1.1;
       Pro.isRecording := Pro.isRecording st;
       Pro.feedback := Pro.feedback st;
       Pro.history := Pro.history st |}
    q.1.2 q.2.

End Spec.

(** ** Auxiliary notions for the proofs about the word patterns *)

Module Scan.
Import JsString JsRegExp.

(** The characters [cs] match the start of [s], letter case apart. *)
Fixpoint prefix_canon (cs : list ascii) (s : string) : bool :=
  match cs, s with
  | [], _ => true
  | c :: cs', String t s' =>
      (canonicalize c =? canonicalize t)%N && prefix_canon cs' s'
  | _ :: _, EmptyString => false
  end.

(** The character before position [j] of [s], where [prev] stands before
    [s]. *)
Definition prev_at (prev : option ascii) (s : string) (j : nat) : option ascii :=
  match j with
  | O => prev
  | S j' => String.get j' s
  end.

(** The word pattern of [cs] matches at the start of [s]. *)
Definition hit (cs : list ascii) (prev : option ascii) (s : string) : bool :=
  negb (isWordAt prev) && prefix_canon cs s
  && negb (isWordAt (first (drop (length cs) s))).

Definition letter (c : ascii) : bool := between 97 122 (code c).

Definition all_ascii : list ascii := ascii_of_nat <$> seq 0 256.

(** The text holds a white-space character; it starts, it ends with a
    character that is none. *)
Fixpoint has_ws (s : string) : bool :=
  match s with
  | EmptyString => false
  | String c s' => isWhiteSpace c || has_ws s'
  end.

Definition starts_plain (s : string) : bool :=
  match s with
  | EmptyString => false
  | String c _ => negb (isWhiteSpace c)
  end.

Fixpoint ends_plain (s : string) : bool :=
  match s with
  | EmptyString => false
  | String c s' =>
      match s' with
      | EmptyString => negb (isWhiteSpace c)
      | String _ _ => ends_plain s'
      end
  end.

Definition plain_char (c : ascii) : bool := letter c || (code c =? 32)%N.

(** After a character that is no letter, the word does not start again. *)
Fixpoint adjacent_ok (c0 : ascii) (cs : list ascii) : bool :=
  match cs with
  | a :: (b :: _) as tl =>
      (letter a || negb (canonicalize b =? canonicalize c0)%N)
      && adjacent_ok c0 tl
  | _ => true
  end.

(** Words for which a global match finds every whole-word occurrence:
    small letters and spaces, a letter at both ends. *)
Definition plain (cs : list ascii) : bool :=
  match cs with
  | [] => false
  | c0 :: _ =>
      letter c0 && letter (List.last cs c0) && forallb plain_char cs
      && adjacent_ok c0 cs
  end.

End Scan.

(** ** Texts for the examples *)

Module Examples.
Import Spec.

Definition newline : string := String (ascii_of_nat 10) EmptyString.

(** Fifteen words, a tip word among them, no filler word. *)
Definition praise : string :=
  "this talk went really good and we all enjoyed every single minute of it today.".

(** Fifteen words with three "um", separated by spaces and by tabs. *)
Definition hesitant_words : list string :=
  ["um"; "I"; "think"; "um"; "that"; "we"; "should"; "um"; "go"; "to"; "the";
   "park"; "with"; "them"; "today."].

Definition hesitant_spaces : string := String.concat " " hesitant_words.
Definition hesitant_tabs : string := String.concat tab hesitant_words.

(** Fifteen words, one per line. *)
Definition recital : string :=
  String.concat newline
    ["we"; "walked"; "along"; "the"; "river"; "until"; "the"; "sun"; "went";
     "down"; "and"; "then"; "we"; "went"; "home."].

(** Fourteen words after a space, as a later fragment of a dictation
    starts. *)
Definition fragment : string :=
  " and then we slowly walked along the river until the sun went down again.".

(** A dictation as the recognition service hands it over, and as
    [onresult] joins it. *)
Definition fragments : list string := [" um I uh"; " think so"].
Definition dictation : string := " um I uh  think so ".



(** A state of the second component with one stored session. *)
Definition one_session : Pro.State :=
  Pro.analyze
    {| Pro.transcript := "good morning"; Pro.isRecording := false;
       Pro.feedback := None; Pro.history := [] |}
    Pro.NetworkError "09:00:00".

Definition next_transcript : Pro.State :=
  {| Pro.transcript := "um well";
     Pro.isRecording := Pro.isRecording one_session;
     Pro.feedback := Pro.feedback one_session;
     Pro.history := Pro.history one_session |}.

(** Five tokens, four of them words that only the first component's
    vocabulary has. *)
Definition adverbs : string := "basically literally basically literally fine".

End Examples.

(** ** The handlers around the scorers *)

(** What the page offers for speech recognition: the standard constructor,
    the prefixed one, both or none. *)
Record Window : Type := {
  SpeechRecognition : bool;
  webkitSpeechRecognition : bool;
}.

(** The settings a component gives to the recognition object it creates. *)
Record Recognition : Type := {
  lang : string;
  interimResults : bool;
  continuous : bool;
}.

Module AppUI.

(** The component: its state and what its two refs hold.  [recognitionRef]
    is the recognition object, if one was created.  Of the intervals that
    [setInterval] created, [interval] says whether the one in
    [timerRef.current] still runs, and [leaked] counts the running ones
    that no ref holds any more. *)
Record Component : Type := {
  state : App.State;
  recognitionRef : option Recognition;
  interval : bool;
  leaked : nat;
}.

Definition initial : Component :=
  {| state := {| App.isRecording := false; App.transcript := EmptyString;
                 App.sessionHistory := []; App.suggestions := [];
                 App.timer := 0%Z |};
     recognitionRef := None; interval := false; leaked := 0 |}.

(** [startRecording]: without the prefixed constructor an alert and
    nothing else; otherwise a new recognition object is started, the timer
    is set to 0 and a new interval is created.  The transcript is not
    touched. *)
Definition startRecording (w : Window) (c : Component) : Component :=
  if negb (webkitSpeechRecognition w) then c
  else
    {| state :=
         {| App.isRecording := true;
            App.transcript := App.transcript (state c);
            App.sessionHistory := App.sessionHistory (state c);
            App.suggestions := App.suggestions (state c);
            App.timer := 0%Z |};
       recognitionRef :=
         Some {| lang := "en-US"; interimResults := true; continuous := true |};
       interval := true;
       leaked := leaked c + (if interval c then 1 else 0) |}.

(** [recognition.onresult]: the transcripts of the first alternatives of
    the results from [resultIndex] on, concatenated (none when
    [resultIndex] is not below the number of results). *)
Definition onresult (resultIndex : nat) (results : list string)
    (st : App.State) : App.State :=
  {| App.isRecording := App.isRecording st;
     App.transcript :=
       fold_left (fun text r => text +:+ r) (skipn resultIndex results)
         EmptyString;
     App.sessionHistory := App.sessionHistory st;
     App.suggestions := App.suggestions st;
     App.timer := App.timer st |}.

(** The callback of the interval: [setTimer((prev) => prev + 1)]. *)
Definition tick (st : App.State) : App.State :=
  {| App.isRecording := App.isRecording st;
     App.transcript := App.transcript st;
     App.sessionHistory := App.sessionHistory st;
     App.suggestions := App.suggestions st;
     App.timer := (App.timer st + 1)%Z |}.

(** [stopRecording] with the refs: the interval in [timerRef.current] is
    cleared, the state changes as [App.stopRecording] says. *)
Definition stopRecording (c : Component) : Component :=
  {| state := App.stopRecording (state c);
     recognitionRef := recognitionRef c;
     interval := false;
     leaked := leaked c |}.

(** What can happen to the component.  The page shows the start button
    when [isRecording] is false and the stop button when it is true; an
    interval fires while one runs; results arrive once a recognition object
    exists. *)
Inductive Event : Type :=
  | ClickStart (w : Window)
  | ClickStop
  | Tick
  | Result (resultIndex : nat) (results : list string).

Definition enabled (e : Event) (c : Component) : bool :=
  match e with
  | ClickStart _ => negb (App.isRecording (state c))
  | ClickStop => App.isRecording (state c)
  | Tick => interval c || (0 <? leaked c)%nat
  | Result _ _ => bool_decide (is_Some (recognitionRef c))
  end.

Definition handle (e : Event) (c : Component) : Component :=
  match e with
  | ClickStart w => startRecording w c
  | ClickStop => stopRecording c
  | Tick =>
      {| state := tick (state c); recognitionRef := recognitionRef c;
         interval := interval c; leaked := leaked c |}
  | Result i rs =>
      {| state := onresult i rs (state c); recognitionRef := recognitionRef c;
         interval := interval c; leaked := leaked c |}
  end.

(** An event that cannot happen changes nothing. *)
Definition step (c : Component) (e : Event) : Component :=
  if enabled e c then handle e c else c.

Definition run (events : list Event) (c : Component) : Component :=
  fold_left step events c.

(** The data of the progress chart:
    [sessionHistory.map((s, i) => ({ id: sessionHistory.length - i, score: s.score }))]. *)
Definition chart_data (sessionHistory : list App.Session) : list (nat * Z) :=
  imap (fun i s => (length sessionHistory - i, App.session_score s))
    sessionHistory.

End AppUI.

Module ProUI.

(** The component: its state and [recognitionRef.current], which is
    [None] when it is [null]. *)
Record Component : Type := {
  state : Pro.State;
  recognitionRef : option Recognition;
}.

Definition initial : Component :=
  {| state := {| Pro.transcript := EmptyString; Pro.isRecording := false;
                 Pro.feedback := None; Pro.history := [] |};
     recognitionRef := None |}.

(** [initRecognition]: [null] after an alert when the page offers neither
    constructor, else a new recognition object. *)
Definition initRecognition (w : Window) : option Recognition :=
  if negb (SpeechRecognition w || webkitSpeechRecognition w) then None
  else Some {| lang := "en-US"; interimResults := false; continuous := true |}.

Definition set_recording (b : bool) (st : Pro.State) : Pro.State :=
  {| Pro.transcript := Pro.transcript st;
     Pro.isRecording := b;
     Pro.feedback := Pro.feedback st;
     Pro.history := Pro.history st |}.

(** [toggleRecording].  [None] is the [TypeError] of calling [stop] on
    [null]. *)
Definition toggleRecording (w : Window) (c : Component) : option Component :=
  if negb (Pro.isRecording (state c)) then
    match initRecognition w with
    | Some r =>
        Some {| state := set_recording true (state c); recognitionRef := Some r |}
    | None => Some {| state := state c; recognitionRef := None |}
    end
  else
    match recognitionRef c with
    | Some r =>
        Some {| state := set_recording false (state c); recognitionRef := Some r |}
    | None => None
    end.

(** [recognition.onerror] *)
Definition onerror (c : Component) : Component :=
  {| state := set_recording false (state c); recognitionRef := recognitionRef c |}.

Definition onresult (fragments : list string) (c : Component) : Component :=
  {| state := Pro.onresult fragments (state c); recognitionRef := recognitionRef c |}.

(** The states the component can be in.  Results and errors come from a
    recognition object that was created.  An analysis that completes was
    started in an earlier render ([seen]); the button that starts it is
    disabled while the transcript is empty. *)
Inductive reachable : Component → Prop :=
  | reach_initial : reachable initial
  | reach_toggle w c c' :
      reachable c → toggleRecording w c = Some c' → reachable c'
  | reach_result fragments c :
      reachable c → is_Some (recognitionRef c) →
      reachable (onresult fragments c)
  | reach_error c :
      reachable c → is_Some (recognitionRef c) → reachable (onerror c)
  | reach_analysis seen o time c :
      reachable seen → reachable c →
      Pro.transcript (state seen) ≠ EmptyString →
      reachable
        {| state := Pro.analyzeTranscript (state seen) o time (state c);
           recognitionRef := recognitionRef c |}.

End ProUI.

(** ** More notions to state properties with *)

Module Props.
Import JsString.

(** The number of words that are [w] when put in lower case. *)
Definition frequency (w : string) (words : list string) : nat :=
  length (List.filter (fun t => String.eqb (toLowerCase t) w) words).

(** Of the events of a recording: the number of ticks, and the transcript
    after them when it was [text] before. *)
Definition ticks (events : list AppUI.Event) : nat :=
  length
    (List.filter
       (fun e => match e with AppUI.Tick => true | _ => false end) events).

Definition dictated (events : list AppUI.Event) (text : string) : string :=
  fold_left
    (fun t e =>
       match e with
       | AppUI.Result i rs =>
           fold_left (fun text r => text +:+ r) (skipn i rs) EmptyString
       | _ => t
       end)
    events text.

Definition recording_event (e : AppUI.Event) : bool :=
  match e with
  | AppUI.Tick | AppUI.Result _ _ => true
  | _ => false
  end.

(** The code unit with a capital letter A-Z replaced by its small letter,
    and the text with every code unit so replaced: two texts with the same
    image differ in the case of these letters only. *)
Definition lower_letter (c : ascii) : ascii :=
  if between 65 90 (code c) then ascii_of_N (code c + 32) else c.

Fixpoint lower_letters (s : string) : string :=
  match s with
  | EmptyString => EmptyString
  | String c s' => String (lower_letter c) (lower_letters s')
  end.

(** One sentence written in two ways. *)
Definition shouted : string := "UM, I Like it. You Know, it is LITERALLY fine".
Definition whispered : string := "um, i like It. you know, IT is literally fine".

(** A page with the prefixed constructor only, as the first component
    needs it. *)
Definition chrome : Window :=
  {| SpeechRecognition := false; webkitSpeechRecognition := true |}.

(** A recording of five seconds with two results. *)
Definition five_seconds : list AppUI.Event :=
  [AppUI.Tick; AppUI.Result 0 ["um"]; AppUI.Tick; AppUI.Tick;
   AppUI.Result 0 ["um"; " I think so."]; AppUI.Tick; AppUI.Tick].

(** A session of the second component: recording, two fragments, an
    analysis. *)
Definition after_dictation : ProUI.Component :=
  ProUI.onresult [" um I uh"; " think so"]
    {| ProUI.state := ProUI.set_recording true (ProUI.state ProUI.initial);
       ProUI.recognitionRef := ProUI.initRecognition chrome |}.

Definition after_analysis : ProUI.Component :=
  {| ProUI.state :=
       Pro.analyzeTranscript (ProUI.state after_dictation) Pro.NetworkError
         "09:00:00" (ProUI.state after_dictation);
     ProUI.recognitionRef := ProUI.recognitionRef after_dictation |}.

(** What holds of the first component whatever happened to it. *)
Definition session_ok (s : App.Session) : Prop :=
  s = Spec.session_of (App.session_text s, App.session_duration s)
  ∧ (0 ≤ App.session_duration s)%Z.

Definition app_invariant (c : AppUI.Component) : Prop :=
  AppUI.leaked c = 0
  ∧ AppUI.interval c = App.isRecording (AppUI.state c)
  ∧ (App.isRecording (AppUI.state c) = true → is_Some (AppUI.recognitionRef c))
  ∧ App.suggestions (AppUI.state c)
    = match App.sessionHistory (AppUI.state c) with
      | [] => []
      | s :: _ => App.session_feedback s
      end
  ∧ (0 ≤ App.timer (AppUI.state c))%Z
  ∧ Forall session_ok (App.sessionHistory (AppUI.state c)).

(** What holds of the second component in every state it can be in. *)
Definition entry_ok (e : Pro.Entry) : Prop :=
  Pro.entry_text e ≠ EmptyString
  ∧ trim (Pro.entry_text e) = Pro.entry_text e
  ∧ ∃ o, Pro.entry_feedback e = Pro.report (Pro.entry_text e) o.

Definition pro_invariant (c : ProUI.Component) : Prop :=
  (Pro.isRecording (ProUI.state c) = true → is_Some (ProUI.recognitionRef c))
  ∧ trim (Pro.transcript (ProUI.state c)) = Pro.transcript (ProUI.state c)
  ∧ Pro.feedback (ProUI.state c)
    = last (Pro.entry_feedback <$> Pro.history (ProUI.state c))
  ∧ Forall entry_ok (Pro.history (ProUI.state c)).

End Props.

Import JsString JsRegExp Spec Scan Examples Props.

(** ** The base scorer, step by step *)

Section Steps.
Variable text : string.

Lemma filler_step_feedback acc w :
  App.feedback (App.filler_step text acc w)
  = App.feedback acc ++ filler_messages text [w].
Proof.
  unfold App.filler_step, filler_messages, opt; simpl.
  destruct (0 <? App.count_matches text w)%nat; simpl; by rewrite ?app_nil_r.
Qed.

Lemma filler_step_score acc w :
  App.score (App.filler_step text acc w)
  = (App.score acc - points (App.count_matches text w))%Z.
Proof.
  unfold App.filler_step, points.
  destruct (0 <? App.count_matches text w)%nat; simpl; lia.
Qed.

Lemma filler_messages_app ws1 ws2 :
  filler_messages text (ws1 ++ ws2)
  = filler_messages text ws1 ++ filler_messages text ws2.
Proof. unfold filler_messages. by rewrite flat_map_app. Qed.

Lemma fold_filler_feedback ws acc :
  App.feedback (fold_left (App.filler_step text) ws acc)
  = App.feedback acc ++ filler_messages text ws.
Proof.
  revert acc; induction ws as [|w ws IH]; intros acc; simpl.
  - by rewrite app_nil_r.
  - rewrite IH, filler_step_feedback.
    rewrite <- app_assoc. f_equal.
    symmetry. apply (filler_messages_app [w] ws).
Qed.

Lemma filler_points_cons w ws :
  filler_points text (w :: ws)
  = (points (App.count_matches text w) + filler_points text ws)%Z.
Proof. reflexivity. Qed.

Lemma fold_filler_score ws acc :
  App.score (fold_left (App.filler_step text) ws acc)
  = (App.score acc - filler_points text ws)%Z.
Proof.
  revert acc; induction ws as [|w ws IH]; intros acc.
  - change (filler_points text []) with 0%Z. simpl. lia.
  - rewrite filler_points_cons. simpl. rewrite IH, filler_step_score. lia.
Qed.

Lemma fold_filler_stats ws acc w :
  App.fillerStats (fold_left (App.filler_step text) ws acc) !! w
  = if decide (w ∈ ws ∧ 0 < App.count_matches text w)
    then Some (App.count_matches text w)
    else App.fillerStats acc !! w.
Proof.
  revert acc; induction ws as [|v ws IH]; intros acc.
  - destruct (decide _) as [[H _]|H]; [|done]. by apply elem_of_nil in H.
  - cbn [fold_left]. rewrite IH. unfold App.filler_step.
    destruct (Nat.ltb_spec 0 (App.count_matches text v)) as [Hv|Hv];
      cbn [App.fillerStats].
    + rewrite lookup_insert.
      destruct (decide (w ∈ ws ∧ _)) as [[H1 H2]|H1];
        destruct (decide (w ∈ v :: ws ∧ _)) as [H3|H3];
        destruct (decide (v = w)) as [->|H5]; try done;
        exfalso; revert H3; rewrite elem_of_cons; intuition congruence.
    + destruct (decide (w ∈ ws ∧ _)) as [[H1 H2]|H1];
        destruct (decide (w ∈ v :: ws ∧ _)) as [H3|H3]; try done;
        exfalso; revert H3; rewrite elem_of_cons; intuition (subst; lia).
Qed.

Lemma points_range n : (0 <= points n <= 2)%Z.
Proof.
  unfold points. destruct (0 <? n)%nat, (3 <=? n)%nat; lia.
Qed.

Lemma filler_points_nonneg ws : (0 <= filler_points text ws)%Z.
Proof.
  induction ws as [|w ws IH].
  - change (filler_points text []) with 0%Z. lia.
  - rewrite filler_points_cons.
    pose proof (points_range (App.count_matches text w)). lia.
Qed.

(** The feedback and the score after the five checks. *)
Lemma checks_feedback duration :
  App.feedback (App.checks text duration)
  = filler_messages text App.fillerWords
    ++ opt (length (split_space text) <? 15)%nat App.short_message
    ++ opt (negb (App.test_ending text)) App.ending_message
    ++ opt (includes text "good") App.vocabulary_message
    ++ opt (duration <? 30)%Z App.duration_message.
Proof.
  unfold App.checks, App.duration_encouragement, App.vocabulary_tip,
    App.sentence_structure_check, App.short_speech_check, App.filler_detection.
  destruct (duration <? 30)%Z, (includes text "good"),
    (negb (App.test_ending text)), (length (split_space text) <? 15)%nat;
    unfold App.push, opt; cbn [App.feedback]; rewrite ?fold_filler_feedback;
    cbn [App.feedback App.start]; rewrite <- ?app_assoc; cbn [app];
    by rewrite ?app_nil_r.
Qed.

Lemma checks_score duration :
  App.score (App.checks text duration)
  = (10 - filler_points text App.fillerWords
     - (if (length (split_space text) <? 15)%nat then 2 else 0)
     - (if negb (App.test_ending text) then 1 else 0)
     - (if (duration <? 30)%Z then 1 else 0))%Z.
Proof.
  unfold App.checks, App.duration_encouragement, App.vocabulary_tip,
    App.sentence_structure_check, App.short_speech_check, App.filler_detection.
  destruct (duration <? 30)%Z, (includes text "good"),
    (negb (App.test_ending text)), (length (split_space text) <? 15)%nat;
    unfold App.push; cbn [App.score]; rewrite ?fold_filler_score;
    cbn [App.score App.start]; lia.
Qed.

Lemma checks_stats duration :
  App.fillerStats (App.checks text duration)
  = App.fillerStats (App.filler_detection text App.start).
Proof.
  unfold App.checks, App.duration_encouragement, App.vocabulary_tip,
    App.sentence_structure_check, App.short_speech_check.
  destruct (duration <? 30)%Z, (includes text "good"),
    (negb (App.test_ending text)), (length (split_space text) <? 15)%nat;
    reflexivity.
Qed.

End Steps.

Lemma clamp_feedback acc : App.feedback (App.clamp acc) = App.feedback acc.
Proof. unfold App.clamp. by destruct (App.score acc <? 0)%Z. Qed.

Lemma clamp_stats acc : App.fillerStats (App.clamp acc) = App.fillerStats acc.
Proof. unfold App.clamp. by destruct (App.score acc <? 0)%Z. Qed.

Lemma clamp_score acc : App.score (App.clamp acc) = Z.max 0 (App.score acc).
Proof.
  unfold App.clamp. destruct (Z.ltb_spec (App.score acc) 0); simpl; lia.
Qed.

Lemma fallback_score acc : App.score (App.fallback acc) = App.score acc.
Proof.
  unfold App.fallback, App.push.
  destruct (length (App.feedback acc) =? 0)%nat; simpl; lia.
Qed.

Lemma fallback_stats acc : App.fillerStats (App.fallback acc) = App.fillerStats acc.
Proof.
  unfold App.fallback, App.push.
  by destruct (length (App.feedback acc) =? 0)%nat.
Qed.

Lemma fallback_feedback acc :
  App.feedback (App.fallback acc)
  = match App.feedback acc with
    | [] => [App.affirmation]
    | _ :: _ => App.feedback acc
    end.
Proof.
  unfold App.fallback, App.push.
  destruct (App.feedback acc) as [|m l] eqn:E; simpl; by rewrite ?E.
Qed.

Lemma generateSuggestions_feedback text duration :
  App.feedback (App.generateSuggestions text duration)
  = match App.feedback (App.checks text duration) with
    | [] => [App.affirmation]
    | m :: l => m :: l
    end.
Proof.
  unfold App.generateSuggestions.
  rewrite clamp_feedback, fallback_feedback.
  by destruct (App.feedback (App.checks text duration)).
Qed.

Lemma generateSuggestions_score text duration :
  App.score (App.generateSuggestions text duration)
  = Z.max 0 (App.score (App.checks text duration)).
Proof.
  unfold App.generateSuggestions. by rewrite clamp_score, fallback_score.
Qed.

(** ** Matching a word pattern *)

Lemma first_drop n s : first (drop n s) = String.get n s.
Proof.
  revert s; induction n as [|n IH]; intros [|c s]; simpl; auto.
Qed.

Lemma drop_drop i n s : drop n (drop i s) = drop (i + n) s.
Proof.
  revert s; induction i as [|i IH]; intros s; simpl; [done|].
  destruct s as [|c s]; simpl; [by destruct n|apply IH].
Qed.

(** Facts about single characters are checked on all 256 of them. *)
Lemma all_ascii_forallb (P : ascii → bool) :
  forallb P all_ascii = true → ∀ c, P c = true.
Proof.
  intros H c. rewrite forallb_forall in H. apply H.
  unfold all_ascii. rewrite <- (ascii_nat_embedding c).
  apply in_map, in_seq. pose proof (nat_ascii_bounded c). lia.
Qed.

Lemma canon_word_char t :
  between 65 90 (canonicalize t) = true → isWordChar t = true.
Proof.
  intros H.
  pose proof (all_ascii_forallb
    (λ t, implb (between 65 90 (canonicalize t)) (isWordChar t))
    ltac:(vm_compute; reflexivity) t) as Ht.
  cbv beta in Ht. by rewrite H in Ht.
Qed.

Lemma letter_canon c : letter c = true → between 65 90 (canonicalize c) = true.
Proof.
  intros H.
  pose proof (all_ascii_forallb
    (λ c, implb (letter c) (between 65 90 (canonicalize c)))
    ltac:(vm_compute; reflexivity) c) as Hc.
  cbv beta in Hc. by rewrite H in Hc.
Qed.

Lemma canon_letter_word c t :
  letter c = true → canonicalize c = canonicalize t → isWordChar t = true.
Proof.
  intros Hc Heq. apply canon_word_char. rewrite <- Heq. by apply letter_canon.
Qed.

Lemma canon_plain_lower c t :
  plain_char c = true →
  (canonicalize c =? canonicalize t)%N = Ascii.eqb (toLowerCaseChar t) c.
Proof.
  intros H.
  pose proof (all_ascii_forallb
    (λ c, implb (plain_char c)
            (forallb (λ t, Bool.eqb (canonicalize c =? canonicalize t)%N
                             (Ascii.eqb (toLowerCaseChar t) c)) all_ascii))
    ltac:(vm_compute; reflexivity) c) as Hc.
  cbv beta in Hc. rewrite H in Hc. cbn [implb] in Hc.
  pose proof (all_ascii_forallb _ Hc t) as Ht. cbv beta in Ht.
  by apply Bool.eqb_prop in Ht.
Qed.

Lemma prefix_canon_get cs s j c :
  prefix_canon cs s = true → cs !! j = Some c →
  ∃ t, String.get j s = Some t ∧ canonicalize c = canonicalize t.
Proof.
  revert s j; induction cs as [|c0 cs IH]; intros s j Hp Hj; [done|].
  destruct s as [|t s]; [done|]. simpl in Hp.
  apply andb_true_iff in Hp as [Hc Hp].
  destruct j as [|j]; simpl in *.
  - inversion Hj; subst. exists t. split; [done|]. by apply N.eqb_eq.
  - eauto.
Qed.

Lemma prefix_canon_length cs s :
  prefix_canon cs s = true → length cs ≤ String.length s.
Proof.
  revert s; induction cs as [|c cs IH]; intros s Hp; simpl; [lia|].
  destruct s as [|t s]; [done|]. simpl in *.
  apply andb_true_iff in Hp as [_ Hp]. apply IH in Hp. lia.
Qed.

Lemma prefix_canon_lower cs s :
  forallb plain_char cs = true →
  prefix_canon cs s
  = String.eqb (toLowerCase (take (length cs) s)) (string_of_list_ascii cs).
Proof.
  revert s; induction cs as [|c cs IH]; intros s Hpl; [done|].
  simpl in Hpl. apply andb_true_iff in Hpl as [Hc Hpl].
  destruct s as [|t s]; [done|]. simpl.
  rewrite (IH s Hpl), (canon_plain_lower c t Hc).
  by destruct (Ascii.eqb (toLowerCaseChar t) c).
Qed.

Lemma run_chars cs rest prev s :
  run ((Char <$> cs) ++ rest) prev s
  = if prefix_canon cs s
    then (λ n, length cs + n) <$> run rest (prev_at prev s (length cs)) (drop (length cs) s)
    else None.
Proof.
  revert prev s; induction cs as [|c cs IH]; intros prev s.
  - simpl. by destruct (run rest prev s).
  - destruct s as [|t s]; [done|]. cbn [fmap list_fmap app run prefix_canon].
    destruct (canonicalize c =? canonicalize t)%N; [|done].
    rewrite IH. cbn [andb length drop].
    destruct (prefix_canon cs s); [|done].
    replace (prev_at prev (String t s) (S (length cs)))
      with (prev_at (Some t) s (length cs)) by (by destruct (length cs)).
    by destruct (run rest _ _).
Qed.

Lemma plain_first c0 cs s :
  letter c0 = true → prefix_canon (c0 :: cs) s = true → isWordAt (first s) = true.
Proof.
  intros Hl Hp. destruct s as [|t s]; [done|]. simpl in *.
  apply andb_true_iff in Hp as [Hc _]. apply N.eqb_eq in Hc.
  by apply (canon_letter_word c0).
Qed.

Lemma last_lookup_default (cs : list ascii) c0 :
  cs ≠ [] → cs !! (length cs - 1) = Some (List.last cs c0).
Proof.
  induction cs as [|a [|b cs] IH]; intros Hne; [done|done|].
  specialize (IH ltac:(done)). simpl in *. by rewrite Nat.sub_0_r in IH.
Qed.

Lemma run_word_pattern cs prev s :
  plain cs = true →
  run (WordBoundary :: (Char <$> cs) ++ [WordBoundary]) prev s
  = if hit cs prev s then Some (length cs) else None.
Proof.
  intros Hpl. unfold hit.
  destruct cs as [|c0 cs]; [done|]. unfold plain in Hpl.
  apply andb_true_iff in Hpl as [Hpl _].
  apply andb_true_iff in Hpl as [Hpl _].
  apply andb_true_iff in Hpl as [H0 Hlast].
  cbn [run]. rewrite run_chars.
  destruct (prefix_canon (c0 :: cs) s) eqn:Hp.
  - rewrite (plain_first _ _ _ H0 Hp).
    destruct (prefix_canon_get _ _ (length (c0 :: cs) - 1) _ Hp
                (last_lookup_default (c0 :: cs) c0 ltac:(done)))
      as (t & Hget & Hc).
    assert (prev_at prev s (length (c0 :: cs)) = Some t) as ->.
    { simpl in *. by rewrite Nat.sub_0_r in Hget. }
    cbn [run isWordAt]. rewrite (canon_letter_word _ _ Hlast Hc).
    destruct (isWordAt prev), (isWordAt (first _)); simpl; try done.
    by rewrite Nat.add_0_r.
  - rewrite andb_false_r. simpl. by destruct (xorb _ _).
Qed.

Lemma adjacent_ok_lookup c0 cs j a b :
  adjacent_ok c0 cs = true → cs !! j = Some a → cs !! (S j) = Some b →
  letter a = true ∨ canonicalize b ≠ canonicalize c0.
Proof.
  revert j; induction cs as [|x cs IH]; intros j Hadj Ha Hb; [done|].
  destruct cs as [|y cs]; [done|].
  cbn [adjacent_ok] in Hadj. apply andb_true_iff in Hadj as [H1 H2].
  destruct j as [|j].
  - simpl in Ha, Hb. inversion Ha; inversion Hb; subst.
    apply orb_true_iff in H1 as [H1|H1]; [by left|right].
    apply negb_true_iff, N.eqb_neq in H1. done.
  - apply (IH j); done.
Qed.

Lemma no_hit_inside cs prev s j :
  plain cs = true → prefix_canon cs s = true → 0 < j < length cs →
  hit cs (prev_at prev s j) (drop j s) = false.
Proof.
  intros Hpl Hp [Hj1 Hj2]. destruct j as [|j]; [lia|].
  destruct cs as [|c0 cs]; [done|]. unfold plain in Hpl.
  apply andb_true_iff in Hpl as [Hpl Hadj].
  destruct (lookup_lt_is_Some_2 (c0 :: cs) j ltac:(lia)) as [a Ha].
  destruct (lookup_lt_is_Some_2 (c0 :: cs) (S j) ltac:(lia)) as [b Hb].
  destruct (prefix_canon_get _ _ _ _ Hp Ha) as (ta & Hta & Hca).
  destruct (prefix_canon_get _ _ _ _ Hp Hb) as (tb & Htb & Hcb).
  unfold hit. cbn [prev_at]. rewrite Hta. cbn [isWordAt].
  destruct (adjacent_ok_lookup _ _ _ _ _ Hadj Ha Hb) as [Hl|Hne].
  - by rewrite (canon_letter_word _ _ Hl Hca).
  - destruct (prefix_canon (c0 :: cs) (drop (S j) s)) eqn:Hp';
      [|by rewrite andb_false_r].
    exfalso. apply Hne.
    destruct (prefix_canon_get _ _ 0 c0 Hp' eq_refl) as (t0 & Ht0 & Hc0).
    rewrite <- first_drop, drop_drop, Nat.add_0_r, first_drop, Htb in Ht0.
    inversion Ht0; subst. congruence.
Qed.

Lemma hit_shift cs prev t s j :
  hit cs (prev_at prev (String t s) (S j)) (drop (S j) (String t s))
  = hit cs (prev_at (Some t) s j) (drop j s).
Proof. by destruct j. Qed.

(** A global match finds the positions where the pattern matches, all of
    them: the positions that a match covers hold no other match. *)
Lemma match_from_hits cs :
  plain cs = true →
  ∀ s skip prev idx,
    skip ≤ String.length s →
    (∀ j, j < skip → hit cs (prev_at prev s j) (drop j s) = false) →
    match_from (WordBoundary :: (Char <$> cs) ++ [WordBoundary]) prev s skip idx
    = List.filter (λ i, hit cs (prev_at prev s (i - idx)) (drop (i - idx) s))
        (seq idx (S (String.length s))).
Proof.
  intros Hpl. induction s as [|t s IH]; intros skip prev idx Hskip Hno.
  - simpl in Hskip. assert (skip = 0) as -> by lia.
    cbn [match_from String.length seq List.filter].
    rewrite run_word_pattern by done. rewrite Nat.sub_diag.
    by destruct (hit cs _ _).
  - cbn [String.length]. rewrite <- cons_seq.
    cbn [List.filter]. rewrite Nat.sub_diag.
    assert (List.filter
                   (λ i, hit cs (prev_at prev (String t s) (i - idx))
                           (drop (i - idx) (String t s)))
                   (seq (S idx) (S (String.length s)))
                 = List.filter
                     (λ i, hit cs (prev_at (Some t) s (i - S idx))
                             (drop (i - S idx) s))
                     (seq (S idx) (S (String.length s)))) as Htail.
    { apply filter_ext_in. intros i Hi. apply in_seq in Hi.
      replace (i - idx) with (S (i - S idx)) by lia. apply hit_shift. }
    rewrite Htail. clear Htail.
    destruct skip as [|k]; cbn [match_from].
    + rewrite run_word_pattern by done.
      destruct (hit cs prev (String t s)) eqn:Hhit.
      * cbn [prev_at drop]. rewrite Hhit. f_equal.
        unfold hit in Hhit.
        apply andb_true_iff in Hhit as [Hhit _].
        apply andb_true_iff in Hhit as [_ Hp].
        pose proof (prefix_canon_length _ _ Hp) as Hlen. simpl in Hlen.
        apply IH; [lia|].
        intros j Hj. rewrite <- hit_shift with (prev := prev).
        apply no_hit_inside; [done|done|lia].
      * cbn [prev_at drop]. rewrite Hhit.
        apply IH; [lia|]. intros j Hj; lia.
    + rewrite (Hno 0) by lia.
      apply IH; [simpl in Hskip; lia|].
      intros j Hj. rewrite <- hit_shift with (prev := prev). apply Hno. lia.
Qed.

Lemma hit_whole_word word text i :
  forallb plain_char (list_ascii_of_string word) = true →
  hit (list_ascii_of_string word) (prev_at None text i) (drop i text)
  = whole_word_at word text i.
Proof.
  intros Hpl. unfold hit, whole_word_at.
  rewrite prefix_canon_lower by done.
  rewrite first_drop, <- first_drop, drop_drop, first_drop.
  rewrite string_of_list_ascii_of_string.
  assert (length (list_ascii_of_string word) = String.length word) as ->.
  { clear. induction word; simpl; congruence. }
  assert (prev_at None text i = before text i) as -> by (by destruct i).
  reflexivity.
Qed.

(** What the pattern of a plain word counts is the number of its
    case-insensitive whole-word occurrences. *)
Lemma count_matches_plain text word :
  plain (list_ascii_of_string word) = true →
  App.count_matches text word = occurrences word text.
Proof.
  intros Hpl. unfold App.count_matches, match_all, App.word_pattern, occurrences.
  rewrite match_from_hits; [|done|lia|intros j Hj; lia].
  f_equal. apply filter_ext. intros i. rewrite Nat.sub_0_r.
  apply hit_whole_word.
  unfold plain in Hpl. destruct (list_ascii_of_string word); [done|].
  apply andb_true_iff in Hpl as [Hpl _].
  by apply andb_true_iff in Hpl as [_ Hpl].
Qed.

Lemma fillerWords_plain w :
  w ∈ App.fillerWords → plain (list_ascii_of_string w) = true.
Proof.
  unfold App.fillerWords. rewrite !elem_of_cons, elem_of_nil.
  intros [->|[->|[->|[->|[->|[->|[->|[]]]]]]]]; reflexivity.
Qed.

Lemma count_matches_occurrences text w :
  w ∈ App.fillerWords → App.count_matches text w = occurrences w text.
Proof. intros Hw. by apply count_matches_plain, fillerWords_plain. Qed.

(** ** The messages are all different *)

Lemma filler_message_head w n :
  ∃ rest, App.filler_message w n
          = String (ascii_of_nat 226) (String (ascii_of_nat 154) rest).
Proof. unfold App.filler_message. eexists. reflexivity. Qed.

Lemma filler_message_not_fixed w n m :
  m ∈ [App.short_message; App.ending_message; App.vocabulary_message;
       App.duration_message; App.affirmation] →
  App.filler_message w n ≠ m.
Proof.
  intros Hm Heq. destruct (filler_message_head w n) as [rest Hr].
  rewrite Hr in Heq. clear Hr.
  rewrite !elem_of_cons, elem_of_nil in Hm.
  destruct Hm as [->|[->|[->|[->|[->|[]]]]]]; discriminate Heq.
Qed.

Lemma elem_of_filler_messages text ws m :
  m ∈ filler_messages text ws → ∃ w n, m = App.filler_message w n.
Proof.
  unfold filler_messages. rewrite list_elem_of_In, in_flat_map.
  intros (w & _ & Hin). unfold opt in Hin.
  destruct (0 <? App.count_matches text w)%nat; [|done].
  destruct Hin as [<-|[]]. eauto.
Qed.

Lemma filler_messages_nil text ws :
  filler_messages text ws = []
  ↔ Forall (λ w, App.count_matches text w = 0) ws.
Proof.
  induction ws as [|w ws IH].
  - split; [constructor|done].
  - change (filler_messages text (w :: ws))
      with (opt (0 <? App.count_matches text w)%nat
              (App.filler_message w (App.count_matches text w))
            ++ filler_messages text ws).
    rewrite Forall_cons, <- IH. unfold opt.
    destruct (Nat.ltb_spec 0 (App.count_matches text w)); simpl.
    + split; [done|]. intros [? _]. lia.
    + split; [|tauto]. intros ->. split; [lia|done].
Qed.

Lemma count_occ_filler_messages text ws m :
  m ∈ [App.short_message; App.ending_message; App.vocabulary_message;
       App.duration_message; App.affirmation] →
  count_occ string_dec (filler_messages text ws) m = 0.
Proof.
  intros Hm. apply count_occ_not_In. rewrite <- list_elem_of_In.
  intros (w & n & ->)%elem_of_filler_messages.
  by apply (filler_message_not_fixed w n) in Hm.
Qed.

Lemma body_not_affirmation text duration :
  App.affirmation ∉ App.feedback (App.checks text duration).
Proof.
  rewrite checks_feedback, !elem_of_app. unfold opt.
  intros [H|[H|[H|[H|H]]]].
  - apply elem_of_filler_messages in H as (w & n & H). symmetry in H.
    revert H. apply filler_message_not_fixed. set_solver.
  - destruct (_ <? _)%nat; [|by apply elem_of_nil in H].
    apply list_elem_of_singleton in H. discriminate H.
  - destruct (negb _); [|by apply elem_of_nil in H].
    apply list_elem_of_singleton in H. discriminate H.
  - destruct (includes _ _); [|by apply elem_of_nil in H].
    apply list_elem_of_singleton in H. discriminate H.
  - destruct (_ <? _)%Z; [|by apply elem_of_nil in H].
    apply list_elem_of_singleton in H. discriminate H.
Qed.

Lemma split_on_length sep cur s :
  length (split_on sep cur s) = S (count_char sep s).
Proof.
  revert cur; induction s as [|c s IH]; intros cur; simpl; [done|].
  destruct (Ascii.eqb c sep); simpl; by rewrite IH.
Qed.

(** ** The base scorer on the examples of the specification *)

Example empty_text_scores_6 :
  App.score (App.generateSuggestions EmptyString 0) = 6%Z
  ∧ App.feedback (App.generateSuggestions EmptyString 0)
    = [App.short_message; App.ending_message; App.duration_message].
Proof. split; reflexivity. Qed.

Example good_four_times_scores_8 :
  App.score
    (App.generateSuggestions
       "This is good. This is good. This is good. This is good." 45) = 8%Z
  ∧ App.feedback
      (App.generateSuggestions
         "This is good. This is good. This is good. This is good." 45)
    = [App.short_message; App.vocabulary_message].
Proof. split; vm_compute; reflexivity. Qed.

(** ** The base scorer: the claims *)

(** C1.  The score of the base scorer's report and the fluency score of
    the extended report are integers between 0 and 10.  In the base scorer
    the score starts at 10, no step of the analysis raises it, and the last
    step replaces a negative score by 0. *)
Theorem score_between_0_and_10 text duration transcript o :
  (0 ≤ App.score (App.generateSuggestions text duration) ≤ 10)%Z
  ∧ (0 ≤ Pro.fluencyScore (Pro.report transcript o) ≤ 10)%Z
  ∧ Pro.fluencyScore (Pro.report transcript o)
    = (10 - (if (5 <? Pro.fillerCount (Pro.report transcript o))%nat then 2 else 0)
       - (if (length (split_ws transcript) <? 10)%nat then 2 else 0)
       - (if (0 <? length (Pro.repeatedWords (Pro.report transcript o)))%nat
          then 1 else 0))%Z
  ∧ App.score App.start = 10%Z
  ∧ (∀ acc w, App.score (App.filler_step text acc w) ≤ App.score acc)%Z
  ∧ (∀ acc, App.score (App.short_speech_check text acc) ≤ App.score acc)%Z
  ∧ (∀ acc, App.score (App.sentence_structure_check text acc) ≤ App.score acc)%Z
  ∧ (∀ acc, App.score (App.vocabulary_tip text acc) ≤ App.score acc)%Z
  ∧ (∀ acc, App.score (App.duration_encouragement duration acc) ≤ App.score acc)%Z
  ∧ (∀ acc, App.score (App.fallback acc) = App.score acc)
  ∧ (∀ acc, App.score (App.clamp acc) = Z.max 0 (App.score acc)).
Proof.
  repeat split.
  - rewrite generateSuggestions_score. lia.
  - rewrite generateSuggestions_score, checks_score.
    pose proof (filler_points_nonneg text App.fillerWords).
    destruct (_ <? _)%nat, (negb _), (_ <? _)%Z; lia.
  - unfold Pro.report, Pro.fluency; cbn [Pro.fluencyScore].
    destruct (5 <? _)%nat, (_ <? 10)%nat, (0 <? _)%nat; simpl; lia.
  - unfold Pro.report, Pro.fluency; cbn [Pro.fluencyScore].
    destruct (5 <? _)%nat, (_ <? 10)%nat, (0 <? _)%nat; simpl; lia.
  - unfold Pro.report, Pro.fluency;
      cbn [Pro.fluencyScore Pro.fillerCount Pro.repeatedWords].
    destruct (5 <? _)%nat, (_ <? 10)%nat, (0 <? _)%nat; reflexivity.
  - intros acc w. rewrite filler_step_score.
    pose proof (points_range (App.count_matches text w)). lia.
  - intros acc. unfold App.short_speech_check, App.push.
    destruct (_ <? _)%nat; simpl; lia.
  - intros acc. unfold App.sentence_structure_check, App.push.
    destruct (negb _); simpl; lia.
  - intros acc. unfold App.vocabulary_tip, App.push.
    destruct (includes _ _); simpl; lia.
  - intros acc. unfold App.duration_encouragement, App.push.
    destruct (_ <? _)%Z; simpl; lia.
  - apply fallback_score.
  - apply clamp_score.
Qed.

(** C6.  The messages come in a fixed order: the filler messages in the
    order of the vocabulary (uh, um, like, you know, actually, basically,
    literally), then the length message, the sentence-ending message, the
    vocabulary tip and the duration message; the affirmation is the only
    message exactly when there is no other. *)
Theorem feedback_order text duration :
  let filler w :=
    opt (0 <? App.count_matches text w)%nat
      (App.filler_message w (App.count_matches text w)) in
  let body :=
    filler "uh" ++ filler "um" ++ filler "like" ++ filler "you know"
    ++ filler "actually" ++ filler "basically" ++ filler "literally"
    ++ opt (length (split_space text) <? 15)%nat App.short_message
    ++ opt (negb (App.test_ending text)) App.ending_message
    ++ opt (includes text "good") App.vocabulary_message
    ++ opt (duration <? 30)%Z App.duration_message in
  App.feedback (App.generateSuggestions text duration)
  = if decide (body = []) then [App.affirmation] else body.
Proof.
  intros filler body.
  rewrite generateSuggestions_feedback, checks_feedback.
  assert (filler_messages text App.fillerWords
          ++ opt (length (split_space text) <? 15)%nat App.short_message
          ++ opt (negb (App.test_ending text)) App.ending_message
          ++ opt (includes text "good") App.vocabulary_message
          ++ opt (duration <? 30)%Z App.duration_message = body) as ->.
  { unfold body, filler_messages, App.fillerWords. cbn [flat_map].
    rewrite app_nil_r. by rewrite <- !app_assoc. }
  destruct body; by case_decide.
Qed.

(** C5.  The histogram holds, for every word of the vocabulary that occurs
    in the text, the number of its case-insensitive whole-word occurrences,
    and nothing else: no entry for a word that does not occur, no entry
    below 1. *)
Theorem histogram_counts_occurrences text duration w :
  App.fillerStats (App.generateSuggestions text duration) !! w
  = (if decide (w ∈ App.fillerWords ∧ 0 < occurrences w text)
     then Some (occurrences w text) else None)
  ∧ map_Forall (λ _ n, 1 ≤ n)
      (App.fillerStats (App.generateSuggestions text duration)).
Proof.
  assert (∀ v, App.fillerStats (App.generateSuggestions text duration) !! v
               = if decide (v ∈ App.fillerWords ∧ 0 < occurrences v text)
                 then Some (occurrences v text) else None) as Hlook.
  { intros v. unfold App.generateSuggestions.
    rewrite clamp_stats, fallback_stats, checks_stats.
    unfold App.filler_detection. rewrite fold_filler_stats.
    cbn [App.start App.fillerStats]. rewrite lookup_empty.
    destruct (decide (v ∈ App.fillerWords)) as [Hv|Hv].
    - rewrite (count_matches_occurrences text v Hv).
      repeat case_decide; tauto.
    - repeat case_decide; tauto. }
  split; [apply Hlook|].
  intros v n Hv. rewrite Hlook in Hv.
  case_decide as H; [|done]. inversion Hv; subst. lia.
Qed.

Lemma checks_feedback_nil text duration :
  App.feedback (App.checks text duration) = []
  ↔ Forall (λ w, occurrences w text = 0) App.fillerWords
    ∧ 15 ≤ length (split_space text)
    ∧ App.test_ending text = true
    ∧ includes text "good" = false
    ∧ (30 ≤ duration)%Z.
Proof.
  rewrite checks_feedback, !app_nil, filler_messages_nil.
  assert (Forall (λ w, App.count_matches text w = 0) App.fillerWords
          ↔ Forall (λ w, occurrences w text = 0) App.fillerWords) as ->.
  { rewrite !Forall_forall. split; intros H w Hw.
    - rewrite <- count_matches_occurrences by done. by apply H.
    - rewrite count_matches_occurrences by done. by apply H. }
  unfold opt.
  destruct (Nat.ltb_spec (length (split_space text)) 15),
    (App.test_ending text), (includes text "good"), (Z.ltb_spec duration 30);
    simpl; intuition (try done; try lia).
Qed.

(** C2, amended.  The messages are the affirmation alone if and only if no
    message-producing condition holds: no filler word occurs, the text
    split on the space character has at least 15 pieces, the text contains
    one of [.], [?], [!], the text does not contain "good", and the
    duration is at least 30. *)
Theorem affirmation_iff_no_message text duration :
  App.feedback (App.generateSuggestions text duration) = [App.affirmation]
  ↔ Forall (λ w, occurrences w text = 0) App.fillerWords
    ∧ 15 ≤ length (split_space text)
    ∧ App.test_ending text = true
    ∧ includes text "good" = false
    ∧ (30 ≤ duration)%Z.
Proof.
  rewrite <- checks_feedback_nil, generateSuggestions_feedback.
  pose proof (body_not_affirmation text duration) as Hno.
  destruct (App.feedback (App.checks text duration)) as [|m l]; [done|].
  split; [|done]. intros H. inversion H; subst. exfalso. apply Hno. by left.
Qed.

(** C2 as stated fails: a text with no filler word, fifteen tokens, a full
    stop and a duration of 30 that contains "good" gets the vocabulary tip
    as its only message, not the affirmation. *)
Lemma tip_instead_of_affirmation :
  Forall (λ w, occurrences w praise = 0) App.fillerWords
  ∧ 15 ≤ length (split_space praise)
  ∧ 15 ≤ length (whitespace_tokens praise)
  ∧ App.test_ending praise = true
  ∧ (30 ≤ 30)%Z
  ∧ App.feedback (App.generateSuggestions praise 30) = [App.vocabulary_message]
  ∧ App.feedback (App.generateSuggestions praise 30) ≠ [App.affirmation].
Proof.
  assert (App.feedback (App.generateSuggestions praise 30)
          = [App.vocabulary_message]) as Hf by (vm_compute; reflexivity).
  split_and!.
  - repeat (constructor; [vm_compute; reflexivity|]). constructor.
  - vm_compute. lia.
  - vm_compute. lia.
  - reflexivity.
  - lia.
  - exact Hf.
  - rewrite Hf. discriminate.
Qed.

Lemma flat_map_ext_elem {A B} (f g : A → list B) (l : list A) :
  (∀ x, x ∈ l → f x = g x) → flat_map f l = flat_map g l.
Proof.
  induction l as [|a l IH]; intros H; simpl; [done|].
  rewrite H by (by left). rewrite IH; [done|]. intros x Hx. apply H. by right.
Qed.

Lemma filler_messages_occurrences text :
  filler_messages text App.fillerWords
  = flat_map
      (λ w, opt (0 <? occurrences w text)%nat
              (App.filler_message w (occurrences w text)))
      App.fillerWords.
Proof.
  unfold filler_messages. apply flat_map_ext_elem.
  intros w Hw. by rewrite count_matches_occurrences.
Qed.

Lemma filler_points_occurrences text :
  filler_points text App.fillerWords
  = total ((λ w, points (occurrences w text)) <$> App.fillerWords).
Proof.
  unfold filler_points. f_equal. apply list_fmap_ext.
  intros i w Hw%list_elem_of_lookup_2. by rewrite count_matches_occurrences.
Qed.

(** C3, amended.  For each word of the vocabulary with at least one
    case-insensitive whole-word occurrence, one message is appended and 2
    points are deducted from three occurrences on, else 1 point; the
    deductions of distinct words add up.  As an instance: a text with
    exactly three occurrences of "um" and none of another filler word, at
    least 15 pieces when split on the space character, a sentence ending,
    no "good", and a duration of at least 30 scores 8 and gets the message
    for "um" as its only message. *)
Theorem filler_deductions text duration :
  (App.feedback (App.filler_detection text App.start)
   = flat_map
       (λ w, opt (0 <? occurrences w text)%nat
               (App.filler_message w (occurrences w text)))
       App.fillerWords
   ∧ App.score (App.filler_detection text App.start)
     = (10 - total ((λ w, points (occurrences w text)) <$> App.fillerWords))%Z)
  ∧ (occurrences "um" text = 3 →
     Forall (λ w, w = "um" ∨ occurrences w text = 0) App.fillerWords →
     15 ≤ length (split_space text) →
     App.test_ending text = true →
     includes text "good" = false →
     (30 ≤ duration)%Z →
     App.score (App.generateSuggestions text duration) = 8%Z
     ∧ App.feedback (App.generateSuggestions text duration)
       = [App.filler_message "um" 3]).
Proof.
  split.
  - unfold App.filler_detection.
    rewrite fold_filler_feedback, fold_filler_score.
    by rewrite filler_messages_occurrences, filler_points_occurrences.
  - intros Hum Hothers Hlen Hend Hgood Hdur.
    rewrite generateSuggestions_score, generateSuggestions_feedback.
    rewrite checks_score, checks_feedback.
    rewrite filler_messages_occurrences, filler_points_occurrences.
    apply Nat.ltb_ge in Hlen. apply Z.ltb_ge in Hdur.
    rewrite Hlen, Hend, Hgood, Hdur.
    unfold App.fillerWords in *. cbn [flat_map fmap list_fmap total fold_right].
    repeat match goal with
           | H : Forall _ (_ :: _) |- _ => apply Forall_cons in H as [? H]
           end.
    repeat match goal with
           | H : _ = "um" ∨ occurrences _ _ = 0 |- _ =>
               destruct H as [H|H];
               [try discriminate H
               |try (rewrite Hum in H; discriminate H); rewrite ?H]
           end.
    rewrite Hum. split; reflexivity.
Qed.

(** A text that meets the instance's conditions. *)
Lemma filler_deductions_witness :
  occurrences "um" hesitant_spaces = 3
  ∧ Forall (λ w, w = "um" ∨ occurrences w hesitant_spaces = 0) App.fillerWords
  ∧ 15 ≤ length (split_space hesitant_spaces)
  ∧ App.test_ending hesitant_spaces = true
  ∧ includes hesitant_spaces "good" = false
  ∧ (30 ≤ 30)%Z
  ∧ App.score (App.generateSuggestions hesitant_spaces 30) = 8%Z
  ∧ App.feedback (App.generateSuggestions hesitant_spaces 30)
    = [App.filler_message "um" 3].
Proof.
  assert (occurrences "um" hesitant_spaces = 3) as H1 by reflexivity.
  assert (Forall (λ w, w = "um" ∨ occurrences w hesitant_spaces = 0)
            App.fillerWords) as H2.
  { repeat (constructor; [first [by left | right; vm_compute; reflexivity]|]).
    constructor. }
  assert (15 ≤ length (split_space hesitant_spaces)) as H3
    by (vm_compute; lia).
  assert (App.test_ending hesitant_spaces = true) as H4 by reflexivity.
  assert (includes hesitant_spaces "good" = false) as H5 by reflexivity.
  assert (30 ≤ 30)%Z as H6 by lia.
  split_and!; try assumption;
    apply (proj2 (filler_deductions hesitant_spaces 30) H1 H2 H3 H4 H5 H6).
Defined.

(** C3 as stated fails where it counts whitespace tokens: fifteen tokens
    separated by tabs are one piece for the length check, which deducts 2
    more points and adds its message. *)
Lemma tabs_are_not_spaces :
  occurrences "um" hesitant_tabs = 3
  ∧ Forall (λ w, w = "um" ∨ occurrences w hesitant_tabs = 0) App.fillerWords
  ∧ 15 ≤ length (whitespace_tokens hesitant_tabs)
  ∧ App.test_ending hesitant_tabs = true
  ∧ includes hesitant_tabs "good" = false
  ∧ (30 ≤ 30)%Z
  ∧ App.score (App.generateSuggestions hesitant_tabs 30) = 6%Z
  ∧ App.feedback (App.generateSuggestions hesitant_tabs 30)
    = [App.filler_message "um" 3; App.short_message].
Proof.
  split_and!.
  - reflexivity.
  - repeat (constructor; [first [by left | right; vm_compute; reflexivity]|]).
    constructor.
  - vm_compute. lia.
  - reflexivity.
  - reflexivity.
  - lia.
  - vm_compute. reflexivity.
  - vm_compute. reflexivity.
Qed.

Lemma count_occ_opt b m x :
  count_occ string_dec (opt b m) x
  = if b then (if string_dec m x then 1 else 0) else 0.
Proof. by destruct b. Qed.

(** C4, amended.  The length check splits the text on the space character
    alone: the number of pieces is the number of spaces plus one, empty
    pieces included.  Exactly when that number is below 15 it appends one
    encouragement message and deducts 2 points; otherwise it does neither. *)
Theorem length_check_splits_on_space text duration :
  length (split_space text) = S (count_char " " text)
  ∧ (∀ acc,
       App.feedback (App.short_speech_check text acc)
       = App.feedback acc
         ++ opt (length (split_space text) <? 15)%nat App.short_message
       ∧ App.score (App.short_speech_check text acc)
         = (App.score acc
            - if (length (split_space text) <? 15)%nat then 2 else 0)%Z
       ∧ App.fillerStats (App.short_speech_check text acc)
         = App.fillerStats acc)
  ∧ count_occ string_dec
      (App.feedback (App.generateSuggestions text duration)) App.short_message
    = (if (length (split_space text) <? 15)%nat then 1 else 0).
Proof.
  split_and!.
  - apply split_on_length.
  - intros acc. unfold App.short_speech_check, App.push, opt.
    destruct (_ <? _)%nat; simpl; rewrite ?app_nil_r; split_and!; try done; lia.
  - rewrite generateSuggestions_feedback.
    destruct (App.feedback (App.checks text duration)) as [|m l] eqn:Hbody.
    + apply checks_feedback_nil in Hbody as (_ & Hlen & _).
      apply Nat.ltb_ge in Hlen. rewrite Hlen. reflexivity.
    + rewrite <- Hbody, checks_feedback, !count_occ_app, !count_occ_opt.
      rewrite count_occ_filler_messages by set_solver.
      destruct (string_dec App.short_message App.short_message); [|done].
      destruct (string_dec App.ending_message App.short_message) as [E|_];
        [discriminate E|].
      destruct (string_dec App.vocabulary_message App.short_message) as [E|_];
        [discriminate E|].
      destruct (string_dec App.duration_message App.short_message) as [E|_];
        [discriminate E|].
      destruct (_ <? _)%nat, (negb _), (includes _ _), (_ <? _)%Z; reflexivity.
Qed.

(** C4 as stated fails in both directions: fifteen words on fifteen lines
    are one piece, so the message and the deduction occur; fourteen words
    after a leading space are fifteen pieces, so they do not. *)
Lemma lines_are_one_piece :
  (15 ≤ length (whitespace_tokens recital)
   ∧ length (split_space recital) = 1
   ∧ App.feedback (App.generateSuggestions recital 60) = [App.short_message]
   ∧ App.score (App.generateSuggestions recital 60) = 8%Z)
  ∧ (length (whitespace_tokens fragment) = 14
     ∧ length (split_space fragment) = 15
     ∧ App.feedback (App.generateSuggestions fragment 60) = [App.affirmation]
     ∧ App.score (App.generateSuggestions fragment 60) = 10%Z).
Proof.
  split_and!; vm_compute; first [reflexivity | lia].
Qed.

(** ** The comparison with a tenth *)

Lemma tenth_times_ten : (10 * JsNumber.tenth = 2 ^ 55 + 2)%Z.
Proof. reflexivity. Qed.

(** Rounding keeps a multiple of the unit in the last place between the
    number rounded down and half a unit above the number. *)
Lemma round53_bounds p e :
  (0 < p)%Z → e = (Z.log2 p - 52)%Z → (0 < e)%Z →
  ∃ c, JsNumber.round53 p = (c * 2 ^ e)%Z
       ∧ (p / 2 ^ e ≤ c)%Z
       ∧ (2 * (c * 2 ^ e) ≤ 2 * p + 2 ^ e)%Z.
Proof.
  intros Hp He Hpos. unfold JsNumber.round53. rewrite <- He.
  destruct (Z.leb_spec e 0) as [?|_]; [lia|].
  rewrite Z.shiftr_div_pow2, Z.land_ones, Z.shiftl_1_l by lia.
  assert (0 < 2 ^ e)%Z as HE by (apply Z.pow_pos_nonneg; lia).
  assert (2 ^ e = 2 * 2 ^ (e - 1))%Z as Hhalf.
  { rewrite <- Z.pow_succ_r by lia. f_equal. lia. }
  pose proof (Z.div_mod p (2 ^ e) ltac:(lia)) as Hdm.
  pose proof (Z.mod_pos_bound p (2 ^ e) HE) as Hmod.
  set (q := (p / 2 ^ e)%Z) in *. set (r := (p mod 2 ^ e)%Z) in *.
  destruct ((2 ^ (e - 1) <? r)%Z || ((r =? 2 ^ (e - 1))%Z && Z.odd q)) eqn:Hup.
  - exists (q + 1)%Z. rewrite Z.shiftl_mul_pow2 by lia.
    split_and!; [done|lia|].
    assert (2 ^ (e - 1) ≤ r)%Z.
    { apply orb_true_iff in Hup as [Hup|Hup].
      - apply Z.ltb_lt in Hup. lia.
      - apply andb_true_iff in Hup as [Hup _]. apply Z.eqb_eq in Hup. lia. }
    lia.
  - exists q. rewrite Z.shiftl_mul_pow2 by lia.
    split_and!; [done|lia|]. lia.
Qed.

Lemma gt_times_tenth_spec k n :
  (0 ≤ k)%Z → (0 ≤ n < 2 ^ 32)%Z →
  JsNumber.gt_times_tenth k n = (n <? 10 * k)%Z.
Proof.
  intros Hk Hn. unfold JsNumber.gt_times_tenth, JsNumber.times_tenth.
  rewrite Z.shiftl_1_l.
  pose proof tenth_times_ten as Hten.
  set (p := (n * JsNumber.tenth)%Z).
  assert (10 * p = n * (2 ^ 55 + 2))%Z as Hp10 by (unfold p; lia).
  assert (p < 2 ^ 84)%Z as Hp84.
  { unfold p, JsNumber.tenth. lia. }
  destruct (Z.leb_spec (Z.log2 p - 52) 0) as [He|He].
  - assert (JsNumber.round53 p = p) as ->.
    { unfold JsNumber.round53.
      by destruct (Z.leb_spec (Z.log2 p - 52) 0); [|lia]. }
    destruct (Z.ltb_spec p (k * 2 ^ 55)), (Z.ltb_spec n (10 * k)); try done; lia.
  - assert (0 < p)%Z as Hpos.
    { destruct (Z.lt_trichotomy p 0) as [?|[->|?]]; [|simpl in He|]; lia. }
    destruct (round53_bounds p _ Hpos eq_refl He) as (c & -> & Hlo & Hhi).
    set (e := (Z.log2 p - 52)%Z) in *.
    pose proof (Z.log2_spec p Hpos) as [Hlog _].
    assert (e ≤ 31)%Z as He31.
    { assert (Z.log2 p < 84)%Z by (apply Z.log2_lt_pow2; lia). lia. }
    assert (0 < 2 ^ e)%Z as HE by (apply Z.pow_pos_nonneg; lia).
    assert (2 ^ 52 * 2 ^ e ≤ p)%Z as Hulp.
    { rewrite <- Z.pow_add_r by lia. by replace (52 + e)%Z with (Z.log2 p) by lia. }
    assert (2 ^ 55 = 2 ^ (55 - e) * 2 ^ e)%Z as Hsplit.
    { rewrite <- Z.pow_add_r by lia. f_equal. lia. }
    destruct (Z.ltb_spec n (10 * k)) as [Hlt|Hge].
    + apply Z.ltb_lt.
      assert (2 ^ e ≤ 2 ^ 31)%Z by (apply Z.pow_le_mono_r; lia).
      lia.
    + apply Z.ltb_ge.
      assert (k * 2 ^ 55 ≤ p)%Z as Hkp by lia.
      assert (k * 2 ^ (55 - e) ≤ p / 2 ^ e)%Z as Hdiv.
      { apply Z.div_le_lower_bound; [done|]. rewrite Hsplit in Hkp. lia. }
      rewrite Hsplit, Z.mul_assoc.
      apply Z.mul_le_mono_nonneg_r; lia.
Qed.

(** The model of the product agrees with the machine's binary64
    arithmetic wherever it is run. *)
Lemma gt_times_tenth_float_sample :
  forallb
    (λ n, forallb
            (λ k, Bool.eqb
                    (JsNumber.float_gt_times_tenth (Z.of_nat k) (Z.of_nat n))
                    (JsNumber.gt_times_tenth (Z.of_nat k) (Z.of_nat n)))
            (seq 0 40))
    (seq 0 300)
  = true.
Proof. vm_compute. reflexivity. Qed.

Lemma gt_times_tenth_float_large :
  forallb
    (λ n, forallb
            (λ d, Bool.eqb
                    (JsNumber.float_gt_times_tenth (n / 10 + d) n)
                    (JsNumber.gt_times_tenth (n / 10 + d) n))
            [0; 1; 2]%Z)
    [9; 10; 11; 999999999; 1000000000; 1000000001; 3000000000; 4294967289;
     4294967290; 4294967291; 4294967295]%Z
  = true.
Proof. vm_compute. reflexivity. Qed.

(** ** The extended analysis: tokens and filler count *)

Lemma count_fillers_from words n :
  fold_left Pro.count_step words n
  = n + length (List.filter
                  (λ w, Pro.includes_string Pro.fillerWords (toLowerCase w))
                  words).
Proof.
  revert n; induction words as [|w words IH]; intros n;
    cbn [fold_left List.filter]; [simpl; lia|].
  rewrite IH. unfold Pro.count_step.
  destruct (Pro.includes_string Pro.fillerWords (toLowerCase w));
    cbn [length]; lia.
Qed.

Lemma has_ws_snoc cur c :
  has_ws (cur +:+ String c EmptyString) = has_ws cur || isWhiteSpace c.
Proof.
  induction cur as [|d cur IH]; simpl.
  - by rewrite orb_false_r.
  - change (has_ws (cur +:+ String c EmptyString))
      with (has_ws (String.append cur (String c EmptyString))) in IH.
    rewrite IH. by rewrite orb_assoc.
Qed.

Lemma split_ws_from_no_ws s gap cur :
  has_ws cur = false →
  Forall (λ w, has_ws w = false) (split_ws_from gap cur s).
Proof.
  revert gap cur; induction s as [|c s IH]; intros gap cur Hcur; simpl.
  - by constructor.
  - destruct (isWhiteSpace c) eqn:Hc.
    + destruct gap; [by apply IH|]. constructor; [done|by apply IH].
    + apply IH. by rewrite has_ws_snoc, Hcur, Hc.
Qed.

Lemma toLowerCaseChar_ws c : isWhiteSpace (toLowerCaseChar c) = isWhiteSpace c.
Proof.
  pose proof (all_ascii_forallb
    (λ c, Bool.eqb (isWhiteSpace (toLowerCaseChar c)) (isWhiteSpace c))
    ltac:(vm_compute; reflexivity) c) as Hc.
  by apply Bool.eqb_prop in Hc.
Qed.

Lemma toLowerCase_has_ws w : has_ws (toLowerCase w) = has_ws w.
Proof.
  induction w as [|c w IH]; simpl; [done|]. by rewrite IH, toLowerCaseChar_ws.
Qed.

Lemma snoc_not_empty cur c : cur +:+ String c EmptyString ≠ EmptyString.
Proof. by destruct cur. Qed.

Lemma split_ws_from_nonempty s gap cur :
  (gap = false → cur ≠ EmptyString) →
  (match s with
   | EmptyString => cur ≠ EmptyString
   | String _ _ => ends_plain s = true
   end) →
  Forall (λ w, w ≠ EmptyString) (split_ws_from gap cur s).
Proof.
  revert gap cur; induction s as [|c s IH]; intros gap cur Hgap Hend; simpl.
  - by constructor.
  - assert (isWhiteSpace c = true →
            match s with
            | EmptyString => False
            | String _ _ => ends_plain s = true
            end) as Hws.
    { intros Hc. destruct s; simpl in Hend; [by rewrite Hc in Hend|done]. }
    destruct (isWhiteSpace c) eqn:Hc.
    + specialize (Hws eq_refl).
      assert (Forall (λ w, w ≠ EmptyString) (split_ws_from true EmptyString s)).
      { apply IH; [done|]. by destruct s. }
      destruct gap; [done|]. constructor; [by apply Hgap|done].
    + apply IH; [intros _; apply snoc_not_empty|].
      destruct s; [apply snoc_not_empty|done].
Qed.

Lemma trimStart_plain s :
  trimStart s = EmptyString ∨ starts_plain (trimStart s) = true.
Proof.
  induction s as [|c s IH]; simpl; [by left|].
  destruct (isWhiteSpace c) eqn:Hc; [done|]. right. simpl. by rewrite Hc.
Qed.

Lemma trimEnd_plain s :
  trimEnd s = EmptyString ∨ ends_plain (trimEnd s) = true.
Proof.
  induction s as [|c s IH]; simpl; [by left|].
  destruct (trimEnd s) as [|d t] eqn:Ht.
  - destruct (isWhiteSpace c) eqn:Hc; [by left|]. right. simpl. by rewrite Hc.
  - right. destruct IH as [IH|IH]; [done|]. exact IH.
Qed.

Lemma trimEnd_starts s :
  starts_plain s = true → starts_plain (trimEnd s) = true.
Proof.
  destruct s as [|c s]; simpl; [done|]. intros Hc.
  destruct (trimEnd s); [|done].
  apply negb_true_iff in Hc. rewrite Hc. simpl. by rewrite Hc.
Qed.

Lemma trim_plain raw :
  trim raw ≠ EmptyString →
  starts_plain (trim raw) = true ∧ ends_plain (trim raw) = true.
Proof.
  unfold trim. intros Hne. split.
  - destruct (trimStart_plain raw) as [H|H]; [by rewrite H in Hne|].
    by apply trimEnd_starts.
  - by destruct (trimEnd_plain (trimStart raw)).
Qed.

Lemma filter_all {A} (P : A → Prop) `{∀ x, Decision (P x)} (l : list A) :
  Forall P l → filter P l = l.
Proof.
  induction 1 as [|x l Hx Hl IH]; [done|].
  rewrite filter_cons. case_decide; [by rewrite IH|done].
Qed.

(** The pieces of a trimmed text are its tokens. *)
Lemma split_ws_trimmed raw :
  trim raw ≠ EmptyString →
  split_ws (trim raw) = whitespace_tokens (trim raw).
Proof.
  intros Hne. destruct (trim_plain raw Hne) as [Hs He].
  unfold whitespace_tokens. symmetry. apply filter_all.
  unfold split_ws. destruct (trim raw) as [|c s]; [done|].
  simpl in Hs. apply negb_true_iff in Hs. cbn [split_ws_from]. rewrite Hs.
  apply split_ws_from_nonempty; [done|].
  destruct s; [done|exact He].
Qed.

(** C7.  For a dictated transcript (trimmed, not empty, with fewer tokens
    than an array has room for), the tone is "Hesitant" exactly when the
    filler count exceeds a tenth of the number of whitespace tokens, else
    "Confident" exactly when there are more than 15 tokens, else "Neutral".
    The filler count is the number of tokens that, put in lower case, equal
    a word of the component's vocabulary; no token equals the phrase
    "you know", which is never counted. *)
Theorem tone_rule raw o :
  let transcript := trim raw in
  let tokens := whitespace_tokens transcript in
  let fillers :=
    List.filter
      (λ w, Pro.includes_string Pro.fillerWords (toLowerCase w)) tokens in
  transcript ≠ EmptyString →
  (Z.of_nat (length tokens) < 2 ^ 32)%Z →
  split_ws transcript = tokens
  ∧ Pro.fillerCount (Pro.report transcript o) = length fillers
  ∧ Forall (λ w, toLowerCase w ≠ "you know") tokens
  ∧ Pro.tone (Pro.report transcript o)
    = if decide (length tokens < 10 * length fillers) then "Hesitant"
      else if decide (15 < length tokens) then "Confident" else "Neutral".
Proof.
  intros transcript tokens fillers Hne Hlen.
  assert (split_ws transcript = tokens) as Hsplit by (by apply split_ws_trimmed).
  assert (Forall (λ w, has_ws w = false) tokens) as Hws.
  { rewrite <- Hsplit. by apply split_ws_from_no_ws. }
  assert (Pro.count_fillers tokens = length fillers) as Hcount.
  { unfold Pro.count_fillers. by rewrite count_fillers_from. }
  split_and!; [done| | |].
  - unfold Pro.report. cbn [Pro.fillerCount]. by rewrite Hsplit.
  - eapply Forall_impl; [exact Hws|]. intros w Hw Heq. cbv beta in Hw.
    rewrite <- toLowerCase_has_ws, Heq in Hw. discriminate Hw.
  - unfold Pro.report. cbn [Pro.tone]. rewrite Hsplit, Hcount.
    unfold Pro.tone_of. rewrite gt_times_tenth_spec by lia.
    destruct (Z.ltb_spec (Z.of_nat (length tokens))
                (10 * Z.of_nat (length fillers))).
    + case_decide; [done|lia].
    + case_decide; [lia|].
      destruct (Nat.ltb_spec 15 (length tokens)); case_decide; done || lia.
Qed.

(** A dictation with two filler words among five tokens. *)
Lemma tone_rule_witness :
  Pro.transcript
    (Pro.onresult fragments
       {| Pro.transcript := EmptyString; Pro.isRecording := true;
          Pro.feedback := None; Pro.history := [] |})
  = trim dictation
  ∧ trim dictation ≠ EmptyString
  ∧ (Z.of_nat (length (whitespace_tokens (trim dictation))) < 2 ^ 32)%Z
  ∧ Pro.fillerCount (Pro.report (trim dictation) Pro.NetworkError) = 2
  ∧ Pro.tone (Pro.report (trim dictation) Pro.NetworkError) = "Hesitant".
Proof.
  assert (trim dictation ≠ EmptyString) as H1 by (vm_compute; discriminate).
  assert (Z.of_nat (length (whitespace_tokens (trim dictation))) < 2 ^ 32)%Z
    as H2 by (vm_compute; reflexivity).
  pose proof (tone_rule dictation Pro.NetworkError H1 H2) as (_ & Hc & _ & Ht).
  split_and!; [reflexivity|exact H1|exact H2|exact Hc|exact Ht].
Defined.

(** C7 as stated fails where it counts against the closed vocabulary of
    seven words: the second component has a list of its own, without
    "basically" and "literally".  Of the five tokens of this dictated
    transcript, four are words of the closed vocabulary, more than a tenth;
    the component counts none of them and says "Neutral", not "Hesitant". *)
Lemma closed_vocabulary_is_not_counted :
  let tokens := whitespace_tokens adverbs in
  trim adverbs = adverbs
  ∧ split_ws adverbs = tokens
  ∧ length tokens = 5
  ∧ length
      (List.filter
         (λ w, Pro.includes_string App.fillerWords (toLowerCase w)) tokens)
    = 4
  ∧ length
      (List.filter
         (λ w, Pro.includes_string Pro.fillerWords (toLowerCase w)) tokens)
    = 0
  ∧ ∀ o, Pro.fillerCount (Pro.report adverbs o) = 0
         ∧ Pro.tone (Pro.report adverbs o) = "Neutral".
Proof.
  split_and!; try (vm_compute; reflexivity).
  intros o. split; vm_compute; reflexivity.
Qed.

(** ** The grammar service *)








(** ** The session histories *)

Lemma record_sessions_history ps st :
  App.sessionHistory (fold_left record_session ps st)
  = rev (session_of <$> ps) ++ App.sessionHistory st.
Proof.
  revert st; induction ps as [|p ps IH]; intros st; [done|].
  cbn [fold_left]. rewrite IH. rewrite fmap_cons. cbn [rev].
  rewrite <- app_assoc. reflexivity.
Qed.

Lemma analyze_history st o time :
  Pro.history (Pro.analyze st o time)
  = if decide (Pro.transcript st = EmptyString) then Pro.history st
    else Pro.history st
         ++ [ {| Pro.entry_text := Pro.transcript st;
                 Pro.entry_feedback := Pro.report (Pro.transcript st) o;
                 Pro.entry_time := time |} ].
Proof.
  unfold Pro.analyze, Pro.analyzeTranscript.
  destruct (String.eqb_spec (Pro.transcript st) EmptyString);
    by destruct (decide _).
Qed.

Lemma analyze_sessions_history qs st :
  Pro.history (fold_left analyze_session qs st)
  = Pro.history st
    ++ (entry_of <$> filter (λ q, q.1.1 ≠ EmptyString) qs).
Proof.
  revert st; induction qs as [|q qs IH]; intros st.
  - simpl. by rewrite app_nil_r.
  - cbn [fold_left]. rewrite IH. unfold analyze_session.
    rewrite analyze_history. cbn [Pro.transcript Pro.history].
    rewrite filter_cons.
    destruct (decide (q.1.1 = EmptyString)), (decide (q.1.1 ≠ EmptyString));
      try done.
    rewrite fmap_cons, <- app_assoc. reflexivity.
Qed.

(** C9, amended.  In the base flow a stopped recording puts its session
    at the front of the history, which is therefore ordered most recent
    first.  In the extended flow a completed analysis puts its entry at the
    end of the history, which is therefore ordered oldest first.  In both
    flows the records stored before are unchanged. *)
Theorem history_order st ps pst o time qs :
  App.sessionHistory (App.stopRecording st)
  = session_of (App.transcript st, App.timer st) :: App.sessionHistory st
  ∧ App.sessionHistory (fold_left record_session ps st)
    = rev (session_of <$> ps) ++ App.sessionHistory st
  ∧ Pro.history (Pro.analyze pst o time)
    = (if decide (Pro.transcript pst = EmptyString) then Pro.history pst
       else Pro.history pst ++ [entry_of (Pro.transcript pst, o, time)])
  ∧ Pro.history (fold_left analyze_session qs pst)
    = Pro.history pst ++ (entry_of <$> filter (λ q, q.1.1 ≠ EmptyString) qs).
Proof.
  split_and!.
  - reflexivity.
  - apply record_sessions_history.
  - apply analyze_history.
  - apply analyze_sessions_history.
Qed.

(** C9 as stated fails in the extended flow: after a second analysis the
    new entry is the last of the history, and the first is the older one. *)
Lemma extended_history_oldest_first :
  let older := entry_of ("good morning", Pro.NetworkError, "09:00:00") in
  let newer := entry_of ("um well", Pro.NetworkError, "09:05:00") in
  Pro.history next_transcript = [older]
  ∧ Pro.history (Pro.analyze next_transcript Pro.NetworkError "09:05:00")
    = [older; newer]
  ∧ head (Pro.history (Pro.analyze next_transcript Pro.NetworkError "09:05:00"))
    ≠ Some newer.
Proof.
  intros older newer.
  assert (Pro.history (Pro.analyze next_transcript Pro.NetworkError "09:05:00")
          = [older; newer]) as H by reflexivity.
  split_and!; [reflexivity|exact H|].
  rewrite H. simpl. intros Heq. inversion Heq.
Qed.

(** Two analyses started from the same render (the button stays enabled
    until the first one completes): the second to complete writes the
    history it saw at the start plus its own entry. *)
Example overlapping_analyses_keep_one_entry :
  let first_done :=
    Pro.analyzeTranscript next_transcript Pro.NetworkError "09:05:00"
      next_transcript in
  let second_done :=
    Pro.analyzeTranscript next_transcript Pro.NotJson "09:05:01" first_done in
  length (Pro.history next_transcript) = 1
  ∧ length (Pro.history first_done) = 2
  ∧ length (Pro.history second_done) = 2
  ∧ Pro.entry_time <$> Pro.history second_done = ["09:00:00"; "09:05:01"].
Proof. split_and!; reflexivity. Qed.

(** C10.  Called with an empty transcript, [analyzeTranscript] leaves the
    state as it is.  Called with a transcript that is not empty, it sets
    the report and appends the history entry, and the transcript is empty
    afterwards.  So the transcript is empty after every analysis. *)
Theorem analyze_clears_transcript seen o time now :
  Pro.analyzeTranscript seen o time now
  = (if decide (Pro.transcript seen = EmptyString) then now
     else {| Pro.transcript := EmptyString;
             Pro.isRecording := Pro.isRecording now;
             Pro.feedback := Some (Pro.report (Pro.transcript seen) o);
             Pro.history :=
               Pro.history seen ++ [entry_of (Pro.transcript seen, o, time)] |})
  ∧ Pro.transcript (Pro.analyzeTranscript seen o time now)
    = (if decide (Pro.transcript seen = EmptyString)
       then Pro.transcript now else EmptyString)
  ∧ Pro.transcript (Pro.analyze seen o time) = EmptyString.
Proof.
  unfold Pro.analyze, Pro.analyzeTranscript.
  destruct (String.eqb_spec (Pro.transcript seen) EmptyString) as [He|Hne];
    destruct (decide _); try done.
Qed.

(** ** More about the base scorer *)

Lemma total_points_bounds text ws :
  (0 ≤ total ((λ w, points (occurrences w text)) <$> ws)
   ≤ 2 * Z.of_nat (length ws))%Z.
Proof.
  induction ws as [|w ws IH]; [simpl; lia|].
  rewrite fmap_cons. cbn [total fold_right length]. fold (total ((λ w, points (occurrences w text)) <$> ws)).
  pose proof (points_range (occurrences w text)). lia.
Qed.

(** X1.  The score in closed form: 10, less the points of the filler
    words (2 per word from three occurrences on, else 1), less 2 for fewer
    than 15 pieces, less 1 for no sentence ending, less 1 for a duration
    below 30, and 0 when that is negative.  The filler words cost at most
    14 points, and the text "good" costs none. *)
Theorem score_formula text duration :
  App.score (App.generateSuggestions text duration)
  = Z.max 0
      (10 - total ((λ w, points (occurrences w text)) <$> App.fillerWords)
       - (if (length (split_space text) <? 15)%nat then 2 else 0)
       - (if App.test_ending text then 0 else 1)
       - (if (duration <? 30)%Z then 1 else 0))
  ∧ (0 ≤ total ((λ w, points (occurrences w text)) <$> App.fillerWords) ≤ 14)%Z.
Proof.
  split.
  - rewrite generateSuggestions_score, checks_score, filler_points_occurrences.
    by destruct (App.test_ending text).
  - apply (total_points_bounds text App.fillerWords).
Qed.

Lemma fold_filler_size text ws acc :
  NoDup ws →
  Forall (λ w, App.fillerStats acc !! w = None) ws →
  size (App.fillerStats (fold_left (App.filler_step text) ws acc))
  = size (App.fillerStats acc) + length (filler_messages text ws).
Proof.
  revert acc; induction ws as [|w ws IH]; intros acc Hnd Hfresh.
  - simpl. lia.
  - apply NoDup_cons in Hnd as [Hw Hnd]. apply Forall_cons in Hfresh as [Hfw Hfresh].
    cbn [fold_left]. rewrite IH; [|done|].
    + change (w :: ws) with ([w] ++ ws). rewrite filler_messages_app, length_app.
      unfold App.filler_step, filler_messages, opt. cbn [flat_map].
      destruct (0 <? App.count_matches text w)%nat; cbn [App.fillerStats].
      * rewrite map_size_insert_None by done. simpl. lia.
      * simpl. lia.
    + unfold App.filler_step.
      destruct (0 <? App.count_matches text w)%nat; [|done].
      cbn [App.fillerStats]. apply Forall_forall. intros v Hv.
      rewrite lookup_insert_ne; [|intros ->; contradiction].
      rewrite Forall_forall in Hfresh. by apply Hfresh.
Qed.

Lemma fillerWords_NoDup : NoDup App.fillerWords.
Proof. apply (bool_decide_unpack _). vm_compute. reflexivity. Qed.

Lemma fillerStats_size text duration :
  size (App.fillerStats (App.generateSuggestions text duration))
  = length (filler_messages text App.fillerWords).
Proof.
  unfold App.generateSuggestions.
  rewrite clamp_stats, fallback_stats, checks_stats.
  unfold App.filler_detection. rewrite fold_filler_size.
  - cbn [App.start App.fillerStats]. by rewrite map_size_empty.
  - apply fillerWords_NoDup.
  - apply Forall_forall. intros w _. apply lookup_empty.
Qed.

Lemma filler_messages_length text ws :
  length (filler_messages text ws) ≤ length ws.
Proof.
  induction ws as [|w ws IH]; [done|].
  change (w :: ws) with ([w] ++ ws). rewrite filler_messages_app, length_app.
  unfold filler_messages at 1, opt. cbn [flat_map].
  destruct (0 <? _)%nat; simpl in *; lia.
Qed.

(** X2.  The feedback is never empty and has at most 11 messages: one per
    entry of the histogram, plus one for each of the four checks that
    fires; when there is none of these, the affirmation alone.  The
    histogram has at most 7 entries. *)
Theorem feedback_size text duration :
  let r := App.generateSuggestions text duration in
  length (App.feedback r)
  = Nat.max 1
      (size (App.fillerStats r)
       + (if (length (split_space text) <? 15)%nat then 1 else 0)
       + (if App.test_ending text then 0 else 1)
       + (if includes text "good" then 1 else 0)
       + (if (duration <? 30)%Z then 1 else 0))
  ∧ 1 ≤ length (App.feedback r) ≤ 11
  ∧ size (App.fillerStats r) ≤ 7.
Proof.
  intros r. unfold r. rewrite fillerStats_size.
  pose proof (filler_messages_length text App.fillerWords) as Hle.
  change (length App.fillerWords) with 7 in Hle.
  rewrite generateSuggestions_feedback, checks_feedback.
  set (F := filler_messages text App.fillerWords) in *.
  assert (∀ l : list string,
            length (match l with [] => [App.affirmation] | m :: k => m :: k end)
            = Nat.max 1 (length l)) as Hmax.
  { intros [|m k]; simpl; lia. }
  rewrite Hmax, !length_app. unfold opt.
  destruct (length (split_space text) <? 15)%nat, (App.test_ending text),
    (includes text "good"), (duration <? 30)%Z; simpl; lia.
Qed.

Lemma total_points_zero text ws :
  total ((λ w, points (occurrences w text)) <$> ws) = 0%Z
  ↔ Forall (λ w, occurrences w text = 0) ws.
Proof.
  induction ws as [|w ws IH]; [split; [constructor|done]|].
  rewrite fmap_cons, Forall_cons, <- IH. cbn [total fold_right].
  fold (total ((λ w, points (occurrences w text)) <$> ws)).
  pose proof (total_points_bounds text ws) as [Hnn _].
  unfold points at 1.
  destruct (Nat.ltb_spec 0 (occurrences w text)).
  - destruct (3 <=? occurrences w text)%nat; split; lia.
  - split; [intros ?; split; lia|intros [_ ?]; lia].
Qed.

Lemma no_deduction_score text duration :
  App.score (App.generateSuggestions text duration) = 10%Z
  ↔ Forall (λ w, occurrences w text = 0) App.fillerWords
    ∧ 15 ≤ length (split_space text)
    ∧ App.test_ending text = true
    ∧ (30 ≤ duration)%Z.
Proof.
  rewrite generateSuggestions_score, checks_score, filler_points_occurrences.
  rewrite <- total_points_zero.
  pose proof (total_points_bounds text App.fillerWords) as [Hnn _].
  set (T := total ((λ w, points (occurrences w text)) <$> App.fillerWords)) in *.
  split.
  - intros H.
    destruct (Nat.ltb_spec (length (split_space text)) 15),
      (App.test_ending text), (Z.ltb_spec duration 30);
      cbn [negb] in H; lia.
  - intros (HT & Hlen & Hend & Hdur).
    apply Nat.ltb_ge in Hlen. apply Z.ltb_ge in Hdur.
    rewrite HT, Hlen, Hend, Hdur. reflexivity.
Qed.

Lemma no_deduction_feedback text duration :
  Forall (λ w, occurrences w text = 0) App.fillerWords
  ∧ 15 ≤ length (split_space text)
  ∧ App.test_ending text = true
  ∧ (30 ≤ duration)%Z
  ↔ App.feedback (App.generateSuggestions text duration) = [App.affirmation]
    ∨ App.feedback (App.generateSuggestions text duration)
      = [App.vocabulary_message].
Proof.
  rewrite generateSuggestions_feedback. split.
  - intros (Hocc & Hlen & Hend & Hdur).
    destruct (includes text "good") eqn:Hgood.
    + right. rewrite checks_feedback.
      assert (filler_messages text App.fillerWords = []) as ->.
      { apply filler_messages_nil. rewrite Forall_forall in *. intros w Hw.
        rewrite count_matches_occurrences by done. by apply Hocc. }
      apply Nat.ltb_ge in Hlen. apply Z.ltb_ge in Hdur.
      by rewrite Hlen, Hend, Hgood, Hdur.
    + left.
      assert (App.feedback (App.checks text duration) = []) as ->; [|done].
      by apply checks_feedback_nil.
  - pose proof (body_not_affirmation text duration) as Hno.
    destruct (App.feedback (App.checks text duration)) as [|m l] eqn:Hbody.
    + intros _. apply checks_feedback_nil in Hbody. tauto.
    + intros [H|H]; inversion H; subst; [exfalso; apply Hno; by left|].
      clear H Hno. rewrite checks_feedback in Hbody.
      destruct (filler_messages text App.fillerWords) as [|f F] eqn:HF.
      2:{ exfalso.
          assert (f ∈ filler_messages text App.fillerWords) as Hin
            by (rewrite HF; by left).
          apply elem_of_filler_messages in Hin as (w & n & ->).
          assert (App.filler_message w n = App.vocabulary_message) as Hf
            by (cbn [app] in Hbody; congruence).
          eapply (filler_message_not_fixed w n); [|exact Hf]. set_solver. }
      apply filler_messages_nil in HF. unfold opt in Hbody.
      destruct (Nat.ltb_spec (length (split_space text)) 15);
        [discriminate Hbody|].
      destruct (App.test_ending text); [|discriminate Hbody].
      destruct (includes text "good"), (Z.ltb_spec duration 30);
        try discriminate Hbody.
      split_and!; try done.
      rewrite Forall_forall in *. intros w Hw.
      rewrite <- count_matches_occurrences by done. by apply HF.
Qed.

(** X3.  The score is 10 exactly when the feedback is the affirmation
    alone or the vocabulary tip alone: every other message costs points,
    and points are only lost with a message. *)
Theorem full_score_iff text duration :
  App.score (App.generateSuggestions text duration) = 10%Z
  ↔ App.feedback (App.generateSuggestions text duration) = [App.affirmation]
    ∨ App.feedback (App.generateSuggestions text duration)
      = [App.vocabulary_message].
Proof. by rewrite no_deduction_score, no_deduction_feedback. Qed.

(** X4.  The empty text, whatever the duration: the length message and
    the sentence-ending message, the duration message below 30 seconds, an
    empty histogram, and a score of 7, or 6 below 30 seconds.  The scorer
    does not fail and does not give its lowest score. *)
Theorem empty_text_report duration :
  App.feedback (App.generateSuggestions EmptyString duration)
  = [App.short_message; App.ending_message]
    ++ opt (duration <? 30)%Z App.duration_message
  ∧ App.score (App.generateSuggestions EmptyString duration)
    = (if (duration <? 30)%Z then 6 else 7)%Z
  ∧ App.fillerStats (App.generateSuggestions EmptyString duration) = ∅.
Proof.
  unfold App.generateSuggestions, App.checks, App.duration_encouragement.
  destruct (duration <? 30)%Z; split_and!; vm_compute; reflexivity.
Qed.

(** ** Letter case *)

Lemma canonicalize_letter t : canonicalize (lower_letter t) = canonicalize t.
Proof.
  pose proof (all_ascii_forallb
    (λ t, (canonicalize (lower_letter t) =? canonicalize t)%N)
    ltac:(vm_compute; reflexivity) t) as Ht.
  by apply N.eqb_eq in Ht.
Qed.

Lemma isWordChar_letter t : isWordChar (lower_letter t) = isWordChar t.
Proof.
  pose proof (all_ascii_forallb
    (λ t, Bool.eqb (isWordChar (lower_letter t)) (isWordChar t))
    ltac:(vm_compute; reflexivity) t) as Ht.
  by apply Bool.eqb_prop in Ht.
Qed.

Lemma eqb_letter_mark t c :
  c ∈ [" "; "."; "?"; "!"]%char →
  Ascii.eqb (lower_letter t) c = Ascii.eqb t c.
Proof.
  intros Hc.
  pose proof (all_ascii_forallb
    (λ t, forallb (λ c, Bool.eqb (Ascii.eqb (lower_letter t) c) (Ascii.eqb t c))
            [" "; "."; "?"; "!"]%char)
    ltac:(vm_compute; reflexivity) t) as Ht.
  cbv beta in Ht. rewrite forallb_forall in Ht.
  apply Bool.eqb_prop, Ht. by apply list_elem_of_In.
Qed.

Lemma isWordAt_letter prev :
  isWordAt (lower_letter <$> prev) = isWordAt prev.
Proof. destruct prev; [apply isWordChar_letter|done]. Qed.

Lemma run_letters pat prev s :
  run pat (lower_letter <$> prev) (lower_letters s) = run pat prev s.
Proof.
  revert prev s; induction pat as [|[|c] pat IH]; intros prev s; [done| |].
  - cbn [run]. rewrite IH, isWordAt_letter.
    assert (isWordAt (first (lower_letters s)) = isWordAt (first s)) as ->
      by (destruct s; [done|apply isWordChar_letter]).
    done.
  - destruct s as [|t s]; [done|]. cbn [run lower_letters].
    rewrite canonicalize_letter.
    specialize (IH (Some t) s). cbn [fmap option_fmap option_map] in IH.
    by rewrite IH.
Qed.

Lemma match_from_letters pat prev s skip idx :
  match_from pat (lower_letter <$> prev) (lower_letters s) skip idx
  = match_from pat prev s skip idx.
Proof.
  revert prev skip idx; induction s as [|t s IH]; intros prev skip idx.
  - cbn [match_from lower_letters].
    pose proof (run_letters pat prev EmptyString) as Hr.
    cbn [lower_letters] in Hr. by rewrite Hr.
  - cbn [match_from lower_letters].
    pose proof (run_letters pat prev (String t s)) as Hr.
    cbn [lower_letters] in Hr. rewrite Hr.
    pose proof (IH (Some t)) as IH'. cbn [fmap option_fmap option_map] in IH'.
    destruct skip; [|apply IH'].
    destruct (run pat prev (String t s)); by rewrite IH'.
Qed.

Lemma count_matches_letters text w :
  App.count_matches (lower_letters text) w = App.count_matches text w.
Proof.
  unfold App.count_matches, match_all.
  by rewrite <- (match_from_letters _ None text).
Qed.

Lemma count_char_letters c s :
  c ∈ [" "; "."; "?"; "!"]%char →
  count_char c (lower_letters s) = count_char c s.
Proof.
  intros Hc. induction s as [|t s IH]; [done|].
  cbn [lower_letters count_char]. by rewrite IH, eqb_letter_mark.
Qed.

Lemma test_ending_letters s :
  App.test_ending (lower_letters s) = App.test_ending s.
Proof.
  induction s as [|t s IH]; [done|]. cbn [lower_letters App.test_ending].
  rewrite IH, !eqb_letter_mark by set_solver. done.
Qed.

Lemma filler_fold_same_counts t1 t2 ws acc :
  (∀ w, App.count_matches t1 w = App.count_matches t2 w) →
  fold_left (App.filler_step t1) ws acc = fold_left (App.filler_step t2) ws acc.
Proof.
  intros H. revert acc; induction ws as [|w ws IH]; intros acc; [done|].
  cbn [fold_left]. rewrite IH. unfold App.filler_step. by rewrite H.
Qed.

(** X5.  The case of the letters A to Z does not matter to the filler
    counts, the histogram and the score: two texts that differ only in
    the case of these letters get the same of each.  The patterns are
    matched with the [i] flag, [\b] reads [\w], which holds both cases of
    these letters, and neither the split on the space nor the search for
    an ending mark reads a letter.  (The vocabulary tip, which looks for
    "good" as written, is the one check that reads the case, and it costs
    no points.) *)
Theorem score_ignores_letter_case t1 t2 duration :
  lower_letters t1 = lower_letters t2 →
  (∀ w, App.count_matches t1 w = App.count_matches t2 w)
  ∧ App.fillerStats (App.generateSuggestions t1 duration)
    = App.fillerStats (App.generateSuggestions t2 duration)
  ∧ App.score (App.generateSuggestions t1 duration)
    = App.score (App.generateSuggestions t2 duration).
Proof.
  intros Heq.
  assert (∀ w, App.count_matches t1 w = App.count_matches t2 w) as Hcount.
  { intros w. rewrite <- (count_matches_letters t1), Heq.
    apply count_matches_letters. }
  split_and!; [done| |].
  - unfold App.generateSuggestions.
    rewrite !clamp_stats, !fallback_stats, !checks_stats.
    unfold App.filler_detection.
    by rewrite (filler_fold_same_counts t1 t2).
  - rewrite !generateSuggestions_score, !checks_score.
    unfold split_space. rewrite !split_on_length.
    assert (count_char " " t1 = count_char " " t2) as ->.
    { rewrite <- (count_char_letters " " t1), Heq by set_solver.
      apply count_char_letters. set_solver. }
    assert (App.test_ending t1 = App.test_ending t2) as ->.
    { rewrite <- (test_ending_letters t1), Heq. apply test_ending_letters. }
    assert (filler_points t1 App.fillerWords
            = filler_points t2 App.fillerWords) as ->; [|done].
    unfold filler_points. f_equal. apply list_fmap_ext.
    intros i w _. by rewrite Hcount.
Qed.

(** The sentence written in two ways has four filler words either way. *)
Lemma score_ignores_letter_case_witness :
  lower_letters shouted = lower_letters whispered
  ∧ App.score (App.generateSuggestions shouted 40)
    = App.score (App.generateSuggestions whispered 40)
  ∧ size (App.fillerStats (App.generateSuggestions whispered 40)) = 4.
Proof.
  assert (lower_letters shouted = lower_letters whispered) as H
    by reflexivity.
  split_and!.
  - exact H.
  - exact (proj2 (proj2 (score_ignores_letter_case shouted whispered 40 H))).
  - vm_compute. reflexivity.
Defined.

(** ** The first component: recording, sessions, chart *)

Lemma generateSuggestions_range text duration :
  (0 ≤ App.score (App.generateSuggestions text duration) ≤ 10)%Z
  ∧ App.feedback (App.generateSuggestions text duration) ≠ [].
Proof.
  split.
  - rewrite generateSuggestions_score, checks_score.
    pose proof (filler_points_nonneg text App.fillerWords).
    destruct (_ <? _)%nat, (negb _), (_ <? _)%Z; lia.
  - rewrite generateSuggestions_feedback.
    by destruct (App.feedback (App.checks text duration)).
Qed.

Lemma app_invariant_initial : app_invariant AppUI.initial.
Proof. unfold app_invariant. simpl. split_and!; try done. Qed.

Lemma app_invariant_step c e :
  app_invariant c → app_invariant (AppUI.step c e).
Proof.
  intros (Hleak & Hint & Hrec & Hsug & Htime & Hhist).
  unfold AppUI.step. destruct (AppUI.enabled e c) eqn:Hen; [|done].
  destruct e as [w| | |i rs]; cbn [AppUI.handle AppUI.enabled] in *.
  - unfold AppUI.startRecording.
    destruct (webkitSpeechRecognition w); cbn [negb]; [|done].
    apply negb_true_iff in Hen. rewrite Hen in Hint.
    unfold app_invariant. cbn. rewrite Hint, Hleak.
    split_and!; try done; intros _; by eexists.
  - unfold app_invariant, AppUI.stopRecording, App.stopRecording. cbn.
    split_and!; try done;
      constructor; [|done]; split; [reflexivity|]; cbn; done.
  - unfold app_invariant, AppUI.tick. cbn. split_and!; try done; lia.
  - unfold app_invariant, AppUI.onresult. cbn. split_and!; done.
Qed.

Lemma app_invariant_run events c :
  app_invariant c → app_invariant (AppUI.run events c).
Proof.
  revert c; induction events as [|e events IH]; intros c Hc; [done|].
  apply IH. by apply app_invariant_step.
Qed.

(** X6.  Whatever was clicked, ticked and dictated since the page was
    loaded: no interval runs besides the one the stop button clears, and
    that one runs exactly while recording; while recording there is a
    recognition object; the suggestions shown are the feedback of the most
    recent session; every stored session holds the report of its own
    transcript and duration, so its duration is not negative, its score is
    between 0 and 10 and its feedback is not empty. *)
Theorem recording_invariants events :
  let c := AppUI.run events AppUI.initial in
  AppUI.leaked c = 0
  ∧ AppUI.interval c = App.isRecording (AppUI.state c)
  ∧ (if App.isRecording (AppUI.state c)
     then is_Some (AppUI.recognitionRef c) else True)
  ∧ App.suggestions (AppUI.state c)
    = match App.sessionHistory (AppUI.state c) with
      | [] => []
      | s :: _ => App.session_feedback s
      end
  ∧ Forall
      (λ s, s = session_of (App.session_text s, App.session_duration s)
            ∧ (0 ≤ App.session_duration s)%Z
            ∧ (0 ≤ App.session_score s ≤ 10)%Z
            ∧ App.session_feedback s ≠ [])
      (App.sessionHistory (AppUI.state c)).
Proof.
  intros c.
  destruct (app_invariant_run events AppUI.initial app_invariant_initial)
    as (Hleak & Hint & Hrec & Hsug & Htime & Hhist).
  fold c in Hleak, Hint, Hrec, Hsug, Hhist.
  split_and!; try done.
  - destruct (App.isRecording (AppUI.state c)); [by apply Hrec|done].
  - eapply Forall_impl; [exact Hhist|]. intros s [Hs Hd].
    pose proof (generateSuggestions_range (App.session_text s)
                  (App.session_duration s)) as [Hr Hf].
    pose proof (f_equal App.session_score Hs) as Hsc.
    pose proof (f_equal App.session_feedback Hs) as Hfb.
    cbn in Hsc, Hfb. rewrite Hsc, Hfb. split_and!; done || lia.
Qed.

Lemma run_recording events c :
  forallb recording_event events = true →
  AppUI.interval c = true →
  is_Some (AppUI.recognitionRef c) →
  AppUI.run events c
  = {| AppUI.state :=
         {| App.isRecording := App.isRecording (AppUI.state c);
            App.transcript := dictated events (App.transcript (AppUI.state c));
            App.sessionHistory := App.sessionHistory (AppUI.state c);
            App.suggestions := App.suggestions (AppUI.state c);
            App.timer := (App.timer (AppUI.state c) + Z.of_nat (ticks events))%Z |};
       AppUI.recognitionRef := AppUI.recognitionRef c;
       AppUI.interval := true;
       AppUI.leaked := AppUI.leaked c |}.
Proof.
  revert c; induction events as [|e events IH]; intros c Hev Hint Href.
  - destruct c as [[] ? ? ?]. cbn in *. subst. unfold ticks. cbn.
    by rewrite Z.add_0_r.
  - cbn [forallb] in Hev. apply andb_true_iff in Hev as [He Hev].
    unfold AppUI.run in *. cbn [fold_left].
    destruct e as [w| | |i rs]; try discriminate He.
    + unfold AppUI.step. cbn [AppUI.enabled]. rewrite Hint. cbn [orb AppUI.handle].
      rewrite IH by done. cbn. unfold ticks. cbn [List.filter length].
      f_equal. f_equal. fold (ticks events). lia.
    + unfold AppUI.step. cbn [AppUI.enabled].
      rewrite bool_decide_true by done. cbn [AppUI.handle].
      rewrite IH by done. cbn. reflexivity.
Qed.

(** X7.  A recording, from the click on the start button of a page that
    has the recognition service to the click on the stop button, with
    ticks of the interval and results in between: the session put at the
    front of the history is the report of the last result's transcript and
    of the number of ticks, whatever the timer showed before.  When no
    result arrived, it is the transcript from before the recording that is
    scored: starting a recording does not clear it. *)
Theorem recording_stores_session w c events :
  webkitSpeechRecognition w = true →
  App.isRecording (AppUI.state c) = false →
  forallb recording_event events = true →
  let c' := AppUI.run (AppUI.ClickStart w :: events ++ [AppUI.ClickStop]) c in
  let session :=
    session_of (dictated events (App.transcript (AppUI.state c)),
                Z.of_nat (ticks events)) in
  App.sessionHistory (AppUI.state c')
  = session :: App.sessionHistory (AppUI.state c)
  ∧ App.suggestions (AppUI.state c') = App.session_feedback session
  ∧ App.isRecording (AppUI.state c') = false
  ∧ AppUI.interval c' = false.
Proof.
  intros Hw Hidle Hev c' session. unfold c', AppUI.run.
  cbn [fold_left]. rewrite fold_left_app. cbn [fold_left].
  fold (AppUI.run events (AppUI.step c (AppUI.ClickStart w))).
  assert (AppUI.step c (AppUI.ClickStart w) = AppUI.startRecording w c) as ->.
  { unfold AppUI.step. cbn [AppUI.enabled AppUI.handle]. by rewrite Hidle. }
  unfold AppUI.startRecording. rewrite Hw. cbn [negb].
  rewrite run_recording; [|done|done|by eexists].
  unfold AppUI.step. cbn. split_and!; reflexivity.
Qed.

(** A recording of five ticks and two result events, the second carrying
    two results. *)
Lemma recording_stores_session_witness :
  webkitSpeechRecognition chrome = true
  ∧ App.isRecording (AppUI.state AppUI.initial) = false
  ∧ forallb recording_event five_seconds = true
  ∧ App.sessionHistory
      (AppUI.state
         (AppUI.run (AppUI.ClickStart chrome :: five_seconds ++ [AppUI.ClickStop])
            AppUI.initial))
    = [session_of ("um I think so.", 5%Z)].
Proof.
  split_and!; [reflexivity|reflexivity|reflexivity|].
  exact (proj1 (recording_stores_session chrome AppUI.initial five_seconds
                  eq_refl eq_refl eq_refl)).
Defined.

(** ** The progress chart *)

Lemma chart_data_cons s h :
  AppUI.chart_data (s :: h)
  = (S (length h), App.session_score s) :: AppUI.chart_data h.
Proof.
  unfold AppUI.chart_data. rewrite imap_cons. cbn [length].
  rewrite Nat.sub_0_r. f_equal.
Qed.

(** X8.  The chart of the sessions recorded since the page was loaded has
    one point per session; read from the last point to the first, the
    points are numbered 1, 2, ... and carry the scores of the sessions in
    the order they were recorded, each between 0 and 10 (the range of the
    chart's axis). *)
Theorem chart_numbers_sessions ps :
  let h :=
    App.sessionHistory (fold_left record_session ps (AppUI.state AppUI.initial)) in
  AppUI.chart_data h
  = rev (imap (λ k p, (S k, App.score (App.generateSuggestions p.1 p.2))) ps)
  ∧ Forall (λ d, 1 ≤ d.1 ≤ length ps ∧ (0 ≤ d.2 ≤ 10)%Z) (AppUI.chart_data h).
Proof.
  intros h. unfold h. rewrite record_sessions_history. cbn. rewrite app_nil_r.
  assert (AppUI.chart_data (rev (session_of <$> ps))
          = rev (imap (λ k p, (S k, App.score (App.generateSuggestions p.1 p.2)))
                   ps)) as Heq.
  { induction ps as [|p ps IH] using rev_ind; [done|].
    rewrite fmap_app, rev_app_distr. cbn [fmap list_fmap rev app].
    rewrite chart_data_cons, IH, imap_app, rev_app_distr.
    cbn [imap rev app]. rewrite length_rev, length_fmap, Nat.add_0_r.
    reflexivity. }
  split; [exact Heq|].
  rewrite Heq. apply Forall_forall. intros d Hd.
  apply list_elem_of_In, in_rev, list_elem_of_In in Hd.
  apply elem_of_lookup_imap_1 in Hd as (k & p & -> & Hk).
  apply lookup_lt_Some in Hk. cbn.
  pose proof (generateSuggestions_range p.1 p.2) as [Hr _]. lia.
Qed.

(** ** The second component: repeated words *)

Lemma own_assign o k v k' :
  Pro.own (Pro.assign o k v) k'
  = if String.eqb k k' then Some v else Pro.own o k'.
Proof.
  induction o as [|[k0 v0] o IH]; cbn [Pro.assign Pro.own].
  - done.
  - destruct (String.eqb_spec k0 k) as [->|Hne]; cbn [Pro.own].
    + by destruct (String.eqb k k').
    + rewrite IH. destruct (String.eqb_spec k0 k') as [->|Hne'];
        [|done]. by destruct (String.eqb_spec k k') as [->|].
Qed.

Lemma own_None o k : Pro.own o k = None ↔ k ∉ o.*1.
Proof.
  induction o as [|[k0 v0] o IH]; cbn [Pro.own].
  - split; [intros _; apply not_elem_of_nil|done].
  - rewrite fmap_cons, not_elem_of_cons, <- IH. cbn [fst].
    destruct (String.eqb_spec k0 k) as [->|Hne].
    + split; [done|]. by intros [? _].
    + split; [intros ?; split; [congruence|done]|]. by intros [_ ?].
Qed.

Lemma own_Some o k v : NoDup o.*1 → (Pro.own o k = Some v ↔ (k, v) ∈ o).
Proof.
  induction o as [|[k0 v0] o IH]; cbn [Pro.own]; intros Hnd.
  - split; [done|]. intros H. by apply elem_of_nil in H.
  - rewrite fmap_cons in Hnd. cbn [fst] in Hnd.
    apply NoDup_cons in Hnd as [Hk0 Hnd]. rewrite elem_of_cons, <- (IH Hnd).
    destruct (String.eqb_spec k0 k) as [->|Hne].
    + split; [intros [= ->]; by left|].
      intros [[= ->]|H]; [done|]. exfalso.
      apply own_None in Hk0. congruence.
    + split; [by right|]. intros [[= -> ->]|H]; done.
Qed.

Lemma keys_assign o k v :
  (Pro.assign o k v).*1
  = match Pro.own o k with
    | Some _ => o.*1
    | None => o.*1 ++ [k]
    end.
Proof.
  induction o as [|[k0 v0] o IH]; cbn [Pro.assign Pro.own]; [done|].
  destruct (String.eqb_spec k0 k) as [->|Hne]; [done|].
  rewrite !fmap_cons, IH. by destruct (Pro.own o k).
Qed.

Lemma assign_NoDup o k v : NoDup o.*1 → NoDup (Pro.assign o k v).*1.
Proof.
  intros Hnd. rewrite keys_assign. destruct (Pro.own o k) eqn:Hown; [done|].
  apply NoDup_app. split_and!; [done| |apply NoDup_singleton].
  intros x Hx Hk. apply list_elem_of_singleton in Hk as ->.
  by apply own_None in Hown.
Qed.

Lemma wordFrequency_snoc words w :
  Pro.wordFrequency (words ++ [w])
  = Pro.frequency_step (Pro.wordFrequency words) w.
Proof. unfold Pro.wordFrequency. by rewrite fold_left_app. Qed.

Lemma frequency_snoc k words w :
  frequency k (words ++ [w])
  = frequency k words + (if String.eqb (toLowerCase w) k then 1 else 0).
Proof.
  unfold frequency. rewrite List.filter_app, length_app. cbn [List.filter].
  by destruct (String.eqb (toLowerCase w) k).
Qed.

Lemma wordFrequency_NoDup words : NoDup (Pro.wordFrequency words).*1.
Proof.
  induction words as [|w words IH] using rev_ind; [constructor|].
  rewrite wordFrequency_snoc. unfold Pro.frequency_step.
  destruct (String.eqb (toLowerCase w) "__proto__"); [done|].
  destruct (Pro.own _ _) as [[n|]|]; [by apply assign_NoDup..|].
  destruct (String.eqb (toLowerCase w) "constructor"); by apply assign_NoDup.
Qed.

(** What the object holds under a key after the loop. *)
Lemma wordFrequency_own words k :
  Pro.own (Pro.wordFrequency words) k
  = if String.eqb k "__proto__" then None
    else if (frequency k words =? 0)%nat then None
    else if String.eqb k "constructor" then Some Pro.Text
    else Some (Pro.Count (frequency k words)).
Proof.
  revert k; induction words as [|w words IH] using rev_ind; intros k.
  - cbn. by destruct (String.eqb k "__proto__").
  - rewrite wordFrequency_snoc, frequency_snoc. unfold Pro.frequency_step.
    set (lw := toLowerCase w) in *.
    destruct (String.eqb_spec lw "__proto__") as [Hp|Hp].
    { rewrite IH. destruct (String.eqb_spec k "__proto__") as [->|Hk]; [done|].
      destruct (String.eqb_spec lw k) as [<-|_]; [done|].
      by rewrite Nat.add_0_r. }
    assert (Pro.own
              (match Pro.own (Pro.wordFrequency words) lw with
               | Some (Pro.Count n) =>
                   Pro.assign (Pro.wordFrequency words) lw (Pro.Count (n + 1))
               | Some Pro.Text => Pro.assign (Pro.wordFrequency words) lw Pro.Text
               | None =>
                   if String.eqb lw "constructor"
                   then Pro.assign (Pro.wordFrequency words) lw Pro.Text
                   else Pro.assign (Pro.wordFrequency words) lw (Pro.Count 1)
               end) k
            = if String.eqb lw k
              then (if String.eqb lw "constructor" then Some Pro.Text
                    else Some (Pro.Count (frequency lw words + 1)))
              else Pro.own (Pro.wordFrequency words) k) as ->.
    { rewrite (IH lw). destruct (String.eqb_spec lw "__proto__"); [done|].
      destruct (Nat.eqb_spec (frequency lw words) 0) as [H0|H0].
      - rewrite H0. destruct (String.eqb lw "constructor"); apply own_assign.
      - destruct (String.eqb lw "constructor"); apply own_assign. }
    rewrite IH.
    destruct (String.eqb_spec lw k) as [<-|Hk].
    + destruct (String.eqb_spec lw "__proto__"); [done|].
      destruct (Nat.eqb_spec (frequency lw words + 1) 0); [lia|done].
    + by rewrite Nat.add_0_r.
Qed.

Lemma insert_index_perm i e l :
  Pro.insert_index i e l ≡ₚ (i, e) :: l.
Proof.
  induction l as [|[j e'] l IH]; cbn [Pro.insert_index]; [done|].
  destruct (i <=? j)%N; [done|]. rewrite IH. apply Permutation_swap.
Qed.

Lemma entries_perm o : Pro.entries o ≡ₚ o.
Proof.
  unfold Pro.entries. induction o as [|[k v] o IH]; [done|].
  cbn [Pro.index_entries]. rewrite filter_cons. cbn [fst].
  destruct (Pro.array_index k) as [i|] eqn:Hk.
  - destruct (decide (Some i = None)) as [|_]; [done|].
    rewrite insert_index_perm, fmap_cons. cbn [snd app]. by rewrite IH.
  - destruct (decide (None = None)) as [_|]; [|done].
    rewrite <- Permutation_middle. by rewrite IH.
Qed.

(** X9.  A word is reported as repeated exactly when it has more than 3
    characters and more than 3 of the tokens are that word when put in
    lower case, with two exceptions that are never reported: "constructor"
    and "__proto__", names that the frequency object inherits.  No word is
    reported twice. *)
Theorem repeated_words_rule transcript o w :
  (w ∈ Pro.repeatedWords (Pro.report transcript o)
   ↔ 3 < String.length w
     ∧ 3 < frequency w (split_ws transcript)
     ∧ w ≠ "constructor" ∧ w ≠ "__proto__")
  ∧ NoDup (Pro.repeatedWords (Pro.report transcript o)).
Proof.
  unfold Pro.report. cbn [Pro.repeatedWords]. unfold Pro.repeated.
  set (words := split_ws transcript).
  pose proof (wordFrequency_NoDup words) as Hnd.
  pose proof (entries_perm (Pro.wordFrequency words)) as Hperm.
  split.
  - rewrite list_elem_of_fmap. split.
    + intros ([k v] & -> & Hin). apply list_elem_of_filter in Hin as [HQ Hin].
      rewrite Hperm in Hin. apply own_Some in Hin; [|done].
      rewrite wordFrequency_own in Hin. cbn [fst snd] in *.
      apply andb_prop_elim in HQ as [Hv Hlen]. apply Is_true_eq_true, Nat.ltb_lt in Hlen.
      destruct (String.eqb_spec k "__proto__"); [done|].
      destruct (frequency k words =? 0)%nat; [done|].
      destruct (String.eqb_spec k "constructor"); inversion Hin; subst; [done|].
      cbn [Pro.more_than_three] in Hv.
      apply Is_true_eq_true, Nat.ltb_lt in Hv. done.
    + intros (Hlen & Hfreq & Hc & Hp).
      exists (w, Pro.Count (frequency w words)). split; [done|].
      apply list_elem_of_filter. split.
      * cbn [fst snd Pro.more_than_three].
        apply andb_prop_intro. split; apply Is_true_eq_left, Nat.ltb_lt; done.
      * rewrite Hperm. apply own_Some; [done|]. rewrite wordFrequency_own.
        destruct (String.eqb_spec w "__proto__"); [done|].
        destruct (Nat.eqb_spec (frequency w words) 0); [lia|].
        by destruct (String.eqb_spec w "constructor").
  - apply (NoDup_fmap_2_strong fst).
    + intros [k1 v1] [k2 v2] H1 H2 Hk. cbn in Hk. subst k2.
      apply list_elem_of_filter in H1 as [_ H1]. apply list_elem_of_filter in H2 as [_ H2].
      rewrite Hperm in H1, H2.
      apply own_Some in H1; [|done]. apply own_Some in H2; [|done]. congruence.
    + apply NoDup_filter. rewrite Hperm. eapply NoDup_fmap_1. exact Hnd.
Qed.

(** ** The second component: fluency score and grammar suggestions *)

Lemma count_fillers_le words : Pro.count_fillers words ≤ length words.
Proof.
  unfold Pro.count_fillers. rewrite count_fillers_from. cbn [Nat.add].
  apply List.filter_length_le.
Qed.

(** X10.  The fluency score is at least 5: the three deductions sum to 5 at
    most, so the replacement of a negative score by 0 never happens; 5 is
    reached.  The score is 10 exactly when at most 5 tokens are filler
    words, there are at least 10 tokens and no word is repeated.  The
    filler count is at most the number of tokens. *)
Theorem fluency_at_least_5 transcript o :
  (5 ≤ Pro.fluencyScore (Pro.report transcript o) ≤ 10)%Z
  ∧ Pro.fluencyScore (Pro.report "like like like like um um" o) = 5%Z
  ∧ (Pro.fluencyScore (Pro.report transcript o) = 10%Z
     ↔ Pro.fillerCount (Pro.report transcript o) ≤ 5
       ∧ 10 ≤ length (split_ws transcript)
       ∧ Pro.repeatedWords (Pro.report transcript o) = [])
  ∧ Pro.fillerCount (Pro.report transcript o) ≤ length (split_ws transcript).
Proof.
  split_and!.
  - unfold Pro.report, Pro.fluency; cbn [Pro.fluencyScore].
    destruct (5 <? _)%nat, (_ <? 10)%nat, (0 <? _)%nat; simpl; lia.
  - unfold Pro.report, Pro.fluency; cbn [Pro.fluencyScore].
    destruct (5 <? _)%nat, (_ <? 10)%nat, (0 <? _)%nat; simpl; lia.
  - reflexivity.
  - unfold Pro.report, Pro.fluency;
      cbn [Pro.fluencyScore Pro.fillerCount Pro.repeatedWords].
    destruct (Nat.ltb_spec 5 (Pro.count_fillers (split_ws transcript))),
      (Nat.ltb_spec (length (split_ws transcript)) 10),
      (Pro.repeated (split_ws transcript)) as [|x l]; simpl;
      split; try lia; try done; intros (? & ? & ?); try lia; done.
  - unfold Pro.report; cbn [Pro.fillerCount]. apply count_fillers_le.
Qed.

Lemma prefix_take n s : String.prefix (take n s) s = true.
Proof.
  revert s; induction n as [|n IH]; intros [|c s]; cbn; try done.
  destruct (ascii_dec c c); [apply IH|done].
Qed.

Lemma includes_drop_take s k n : includes s (take n (drop k s)) = true.
Proof.
  revert s; induction k as [|k IH]; intros s.
  - cbn [drop]. destruct s; cbn [includes]; by rewrite prefix_take.
  - destruct s as [|c s].
    + cbn. by destruct n.
    + cbn [drop includes]. rewrite IH. apply orb_true_r.
Qed.

Lemma length_take n s : String.length (take n s) ≤ String.length s.
Proof.
  revert s; induction n as [|n IH]; intros [|c s]; cbn; try lia.
  specialize (IH s). lia.
Qed.

Lemma length_drop k s : String.length (drop k s) ≤ String.length s.
Proof.
  revert s; induction k as [|k IH]; intros [|c s]; cbn; try lia.
  specialize (IH s). lia.
Qed.

(** X11.  Whatever offsets and lengths the service sends (negative, past
    the end of the text), every suggestion of the report quotes a piece of
    the transcript, no longer than the transcript, and proposes a text
    that is not empty. *)
Theorem grammar_suggestions_wellformed transcript o :
  Forall
    (λ g, includes transcript (Pro.g_error g) = true
          ∧ String.length (Pro.g_error g) ≤ String.length transcript
          ∧ Pro.g_suggestion g ≠ EmptyString)
    (Pro.grammarSuggestions (Pro.report transcript o)).
Proof.
  unfold Pro.report, Pro.grammar. cbn [Pro.grammarSuggestions].
  destruct (Pro.grammar_try transcript o) as [l|] eqn:Htry; [|constructor].
  destruct o as [| |[ms|]]; try discriminate Htry. cbn [Pro.grammar_try] in Htry.
  apply mapM_Some_1 in Htry. apply Forall_forall. intros g Hg.
  apply list_elem_of_lookup in Hg as [i Hi].
  destruct (Forall2_lookup_r _ _ _ _ _ Htry Hi) as (m & _ & Hm).
  unfold Pro.to_suggestion in Hm.
  destruct (Pro.replacements m) as [rs|]; [|done].
  inversion Hm; subst; clear Hm. cbn [Pro.g_error Pro.g_suggestion].
  split_and!.
  - apply includes_drop_take.
  - unfold substring. etransitivity; [apply length_take|apply length_drop].
  - destruct rs as [|r rs]; [done|].
    destruct (String.eqb_spec (Pro.value r) EmptyString); done.
Qed.

(** ** The second component: the states it can be in *)

Lemma trimStart_id s : starts_plain s = true → trimStart s = s.
Proof.
  destruct s as [|c s]; [done|]. cbn. intros Hc.
  apply negb_true_iff in Hc. by rewrite Hc.
Qed.

Lemma trimEnd_id s : ends_plain s = true → trimEnd s = s.
Proof.
  induction s as [|c s IH]; [done|]. cbn [ends_plain trimEnd].
  destruct s as [|d s].
  - intros Hc. apply negb_true_iff in Hc. cbn. by rewrite Hc.
  - intros He. by rewrite (IH He).
Qed.

Lemma trim_trim raw : trim (trim raw) = trim raw.
Proof.
  destruct (decide (trim raw = EmptyString)) as [->|Hne]; [done|].
  destruct (trim_plain raw Hne) as [Hs He].
  unfold trim at 1. by rewrite trimStart_id, trimEnd_id.
Qed.

Lemma pro_invariant_reachable c : ProUI.reachable c → pro_invariant c.
Proof.
  induction 1 as [|w c c' Hc IH Ht|fr c Hc IH Href|c Hc IH Href
                  |seen o time c Hseen IHseen Hc IH Hne].
  - unfold pro_invariant. cbn. split_and!; done.
  - destruct IH as (Hrec & Htrim & Hfb & Hhist).
    unfold ProUI.toggleRecording in Ht.
    destruct (Pro.isRecording (ProUI.state c)) eqn:Hr; cbn [negb] in Ht.
    + destruct (ProUI.recognitionRef c) as [r|]; [|done].
      inversion Ht; subst. unfold pro_invariant. cbn. split_and!; done.
    + destruct (ProUI.initRecognition w) as [r|]; inversion Ht; subst;
        unfold pro_invariant; cbn; split_and!; try done;
        first [rewrite Hr; done | intros _; by eexists].
  - destruct IH as (Hrec & Htrim & Hfb & Hhist).
    unfold pro_invariant, ProUI.onresult, Pro.onresult. cbn.
    split_and!; try done. apply trim_trim.
  - destruct IH as (Hrec & Htrim & Hfb & Hhist).
    unfold pro_invariant, ProUI.onerror. cbn. split_and!; done.
  - destruct IH as (Hrec & Htrim & Hfb & Hhist).
    destruct IHseen as (_ & Htrim' & _ & Hhist').
    unfold pro_invariant, Pro.analyzeTranscript.
    cbn [ProUI.state ProUI.recognitionRef].
    destruct (String.eqb_spec (Pro.transcript (ProUI.state seen)) EmptyString);
      [done|].
    cbn [Pro.feedback Pro.history Pro.transcript Pro.isRecording].
    split_and!; try done.
    + rewrite fmap_app. cbn [fmap list_fmap Pro.entry_feedback].
      by rewrite last_snoc.
    + apply Forall_app. split; [done|]. constructor; [|done].
      unfold entry_ok. cbn [Pro.entry_text Pro.entry_feedback].
      split_and!; try done. by eexists.
Qed.

(** X12.  In every state the second component can be in, whatever was
    toggled, dictated and analyzed, also with analyses that overlap:
    a click on the recording button never calls [stop] on a missing
    recognition object; the transcript has no white space at either end;
    the report shown is the report of the last entry of the history (none
    when the history is empty); and every entry of the history holds a
    transcript that is not empty, with its own report. *)
Theorem second_component_invariants c :
  ProUI.reachable c →
  (∀ w, is_Some (ProUI.toggleRecording w c))
  ∧ trim (Pro.transcript (ProUI.state c)) = Pro.transcript (ProUI.state c)
  ∧ Pro.feedback (ProUI.state c)
    = last (Pro.entry_feedback <$> Pro.history (ProUI.state c))
  ∧ Forall
      (λ e, Pro.entry_text e ≠ EmptyString
            ∧ trim (Pro.entry_text e) = Pro.entry_text e
            ∧ ∃ o, Pro.entry_feedback e = Pro.report (Pro.entry_text e) o)
      (Pro.history (ProUI.state c)).
Proof.
  intros Hc. destruct (pro_invariant_reachable c Hc) as (Hrec & Htrim & Hfb & Hhist).
  split_and!; try done.
  intros w. unfold ProUI.toggleRecording.
  destruct (Pro.isRecording (ProUI.state c)) eqn:Hr; cbn [negb].
  - destruct (Hrec eq_refl) as [r ->]. by eexists.
  - destruct (ProUI.initRecognition w); by eexists.
Qed.

(** A state after a dictation and its analysis. *)
Lemma second_component_invariants_witness :
  ProUI.reachable after_analysis
  ∧ Pro.transcript (ProUI.state after_analysis) = EmptyString
  ∧ length (Pro.history (ProUI.state after_analysis)) = 1
  ∧ is_Some (ProUI.toggleRecording chrome after_analysis).
Proof.
  assert (ProUI.reachable after_dictation) as Hd.
  { apply ProUI.reach_result; [|by eexists].
    apply (ProUI.reach_toggle chrome ProUI.initial);
      [apply ProUI.reach_initial|reflexivity]. }
  assert (ProUI.reachable after_analysis) as Ha.
  { apply (ProUI.reach_analysis after_dictation Pro.NetworkError "09:00:00"
             after_dictation Hd Hd).
    vm_compute. discriminate. }
  split_and!; [exact Ha|reflexivity|reflexivity|].
  exact (proj1 (second_component_invariants after_analysis Ha) chrome).
Defined.

(** ** The second component: what a dictation leaves in the transcript *)

Lemma append_cons c s t : String c s +:+ t = String c (s +:+ t).
Proof. reflexivity. Qed.

Lemma append_nil_r s : s +:+ EmptyString = s.
Proof. induction s as [|c s IH]; [done|]. by rewrite append_cons, IH. Qed.

Lemma append_assoc s t u : (s +:+ t) +:+ u = s +:+ (t +:+ u).
Proof. induction s as [|c s IH]; [done|]. by rewrite !append_cons, IH. Qed.

Lemma tokens_gap s :
  filter (λ w, w ≠ EmptyString) (split_ws_from true EmptyString s)
  = filter (λ w, w ≠ EmptyString) (split_ws_from false EmptyString s).
Proof.
  destruct s as [|c s]; [done|]. cbn [split_ws_from].
  destruct (isWhiteSpace c); [|done].
  rewrite filter_cons. by destruct (decide _).
Qed.

Lemma tokens_app_space s1 s2 gap cur :
  (gap = true → cur = EmptyString) →
  filter (λ w, w ≠ EmptyString)
    (split_ws_from gap cur (s1 +:+ String " " s2))
  = filter (λ w, w ≠ EmptyString) (split_ws_from gap cur s1)
    ++ filter (λ w, w ≠ EmptyString) (split_ws_from true EmptyString s2).
Proof.
  revert gap cur; induction s1 as [|c s1 IH]; intros gap cur Hgap.
  - change (EmptyString +:+ String " " s2) with (String " " s2).
    cbn [split_ws_from]. change (isWhiteSpace " ") with true. cbn iota.
    destruct gap.
    + rewrite (Hgap eq_refl). rewrite (filter_cons _ EmptyString []).
      by destruct (decide _).
    + rewrite !filter_cons, filter_nil. by destruct (decide _).
  - rewrite append_cons. cbn [split_ws_from].
    destruct (isWhiteSpace c).
    + destruct gap; [by apply IH|].
      rewrite !filter_cons, IH by done. by destruct (decide _).
    + by apply IH.
Qed.

Lemma tokens_app s1 s2 :
  whitespace_tokens (s1 +:+ String " " s2)
  = whitespace_tokens s1 ++ whitespace_tokens s2.
Proof.
  unfold whitespace_tokens, split_ws.
  rewrite tokens_app_space by done. by rewrite tokens_gap.
Qed.

Lemma tokens_trimStart s : whitespace_tokens (trimStart s) = whitespace_tokens s.
Proof.
  induction s as [|c s IH]; [done|]. cbn [trimStart].
  destruct (isWhiteSpace c) eqn:Hc; [|done].
  rewrite IH. unfold whitespace_tokens, split_ws. cbn [split_ws_from].
  rewrite Hc, filter_cons, tokens_gap. by destruct (decide _).
Qed.

Lemma split_ws_from_cons gap cur c s :
  split_ws_from gap cur (String c s)
  = if isWhiteSpace c
    then (if gap then split_ws_from true EmptyString s
          else cur :: split_ws_from true EmptyString s)
    else split_ws_from false (cur +:+ String c EmptyString) s.
Proof. reflexivity. Qed.

Lemma tokens_trimEnd s gap cur :
  (gap = true → cur = EmptyString) →
  filter (λ w, w ≠ EmptyString) (split_ws_from gap cur (trimEnd s))
  = filter (λ w, w ≠ EmptyString) (split_ws_from gap cur s).
Proof.
  revert gap cur; induction s as [|c s IH]; intros gap cur Hgap; [done|].
  cbn [trimEnd]. rewrite (split_ws_from_cons gap cur c s).
  destruct (trimEnd s) as [|d t] eqn:Ht.
  - pose proof (IH true EmptyString ltac:(done)) as IHt.
    cbn [split_ws_from] in IHt.
    destruct (isWhiteSpace c) eqn:Hc.
    + cbn [split_ws_from].
      destruct gap.
      * rewrite <- IHt. by rewrite (Hgap eq_refl).
      * rewrite (filter_cons _ cur (split_ws_from _ _ _)), <- IHt.
        rewrite !filter_cons, filter_nil.
        destruct (decide (cur ≠ EmptyString)), (decide (EmptyString ≠ EmptyString));
          done.
    + rewrite split_ws_from_cons, Hc.
      rewrite <- (IH false (cur +:+ String c EmptyString)) by done. done.
  - rewrite (split_ws_from_cons gap cur c (String d t)).
    destruct (isWhiteSpace c).
    + destruct gap; [by apply IH|]. rewrite !filter_cons, IH by done. done.
    + by apply IH.
Qed.

Lemma tokens_trim s : whitespace_tokens (trim s) = whitespace_tokens s.
Proof.
  unfold trim. transitivity (whitespace_tokens (trimStart s)).
  - unfold whitespace_tokens, split_ws. by apply tokens_trimEnd.
  - apply tokens_trimStart.
Qed.

Lemma split_ws_from_not_nil s gap cur : split_ws_from gap cur s ≠ [].
Proof.
  revert gap cur; induction s as [|c s IH]; intros gap cur; [done|].
  rewrite split_ws_from_cons.
  destruct (isWhiteSpace c); [destruct gap|]; done.
Qed.

Lemma tokens_joined fragments acc :
  whitespace_tokens
    (fold_left (λ text f, text +:+ f +:+ " ") fragments (acc +:+ " "))
  = whitespace_tokens acc ++ flat_map whitespace_tokens fragments.
Proof.
  revert acc; induction fragments as [|f fragments IH]; intros acc.
  - cbn [fold_left flat_map]. rewrite tokens_app, app_nil_r.
    change (whitespace_tokens EmptyString) with (@nil string).
    by rewrite app_nil_r.
  - cbn [fold_left flat_map].
    rewrite <- append_assoc, IH. rewrite append_assoc.
    change (" " +:+ f) with (String " " f).
    by rewrite tokens_app, app_assoc.
Qed.

(** X13.  After a result, the tokens of the transcript are the tokens of
    the fragments, in their order: joining the fragments with spaces and
    trimming the text neither merges nor loses a word.  The transcript is
    empty, and the analysis disabled, exactly when no fragment holds a
    word. *)
Theorem dictation_keeps_tokens fragments st :
  whitespace_tokens (Pro.transcript (Pro.onresult fragments st))
  = flat_map whitespace_tokens fragments
  ∧ (Pro.transcript (Pro.onresult fragments st) = EmptyString
     ↔ flat_map whitespace_tokens fragments = [])
  ∧ split_ws (Pro.transcript (Pro.onresult fragments st))
    = match flat_map whitespace_tokens fragments with
      | [] => [EmptyString]
      | t :: ts => t :: ts
      end.
Proof.
  assert (whitespace_tokens (Pro.transcript (Pro.onresult fragments st))
          = flat_map whitespace_tokens fragments) as Htok.
  { unfold Pro.onresult. cbn [Pro.transcript]. rewrite tokens_trim.
    destruct fragments as [|f fragments]; [done|].
    cbn [fold_left flat_map].
    change (EmptyString +:+ f +:+ " ") with (f +:+ " ").
    apply tokens_joined. }
  unfold Pro.onresult in *. cbn [Pro.transcript] in *.
  set (raw := fold_left (λ text f, text +:+ f +:+ " ") fragments EmptyString) in *.
  destruct (decide (trim raw = EmptyString)) as [He|Hne].
  - rewrite He in Htok. rewrite <- Htok, He. split_and!; done.
  - pose proof (split_ws_trimmed raw Hne) as Hs. rewrite Htok in Hs.
    split_and!; [done| |].
    + split; [intros ?; contradiction|]. intros Hnil. rewrite Hnil in Hs.
      by apply split_ws_from_not_nil in Hs.
    + rewrite Hs. destruct (flat_map whitespace_tokens fragments) eqn:Hf; [|done].
      by apply split_ws_from_not_nil in Hs.
Qed.

(** ** Which messages the feedback holds *)

Lemma append_inj_l s a b : s +:+ a = s +:+ b → a = b.
Proof.
  induction s as [|c s IH]; [done|]. rewrite !append_cons.
  intros [= H]. by apply IH.
Qed.

Lemma filler_message_words w1 w2 n1 n2 :
  w1 ∈ App.fillerWords → w2 ∈ App.fillerWords →
  App.filler_message w1 n1 = App.filler_message w2 n2 → w1 = w2.
Proof.
  unfold App.filler_message. intros H1 H2 Heq.
  apply append_inj_l, append_inj_l in Heq.
  unfold App.fillerWords in H1, H2.
  rewrite !elem_of_cons, elem_of_nil in H1, H2.
  destruct H1 as [->|[->|[->|[->|[->|[->|[->|[]]]]]]]];
    destruct H2 as [->|[->|[->|[->|[->|[->|[->|[]]]]]]]];
    try reflexivity; exfalso; rewrite !append_cons in Heq; discriminate Heq.
Qed.

Lemma filler_messages_NoDup text ws :
  NoDup ws → ws ⊆ App.fillerWords → NoDup (filler_messages text ws).
Proof.
  induction ws as [|w ws IH]; intros Hnd Hsub; [constructor|].
  apply NoDup_cons in Hnd as [Hw Hnd].
  change (w :: ws) with ([w] ++ ws). rewrite filler_messages_app.
  apply NoDup_app. split_and!.
  - unfold filler_messages, opt. cbn [flat_map].
    destruct (0 <? _)%nat; [apply NoDup_singleton|constructor].
  - intros m Hm Hm'. unfold filler_messages at 1, opt in Hm. cbn [flat_map] in Hm.
    destruct (0 <? _)%nat; [|by apply elem_of_nil in Hm].
    rewrite app_nil_r in Hm. apply list_elem_of_singleton in Hm as ->.
    unfold filler_messages in Hm'.
    apply list_elem_of_In, in_flat_map in Hm' as (v & Hv & Hin).
    apply list_elem_of_In in Hv. unfold opt in Hin.
    destruct (0 <? App.count_matches text v)%nat; [|done].
    destruct Hin as [Hin|[]]. symmetry in Hin.
    apply filler_message_words in Hin; [|set_solver..]. by subst.
  - apply IH; [done|set_solver].
Qed.

Lemma elem_of_opt b m x : x ∈ opt b m ↔ b = true ∧ x = m.
Proof.
  unfold opt. destruct b.
  - rewrite list_elem_of_singleton. split; [by intros ->|by intros [_ ->]].
  - split; [intros H; by apply elem_of_nil in H|by intros [? _]].
Qed.

Lemma elem_of_checks text duration m :
  m ∈ [App.short_message; App.ending_message; App.vocabulary_message;
       App.duration_message] →
  m ∈ App.feedback (App.generateSuggestions text duration)
  ↔ (m = App.short_message ∧ length (split_space text) < 15)
    ∨ (m = App.ending_message ∧ App.test_ending text = false)
    ∨ (m = App.vocabulary_message ∧ includes text "good" = true)
    ∨ (m = App.duration_message ∧ (duration < 30)%Z).
Proof.
  intros Hm.
  assert (m ∈ App.feedback (App.generateSuggestions text duration)
          ↔ m ∈ App.feedback (App.checks text duration)) as ->.
  { rewrite generateSuggestions_feedback.
    destruct (App.feedback (App.checks text duration)); [|done].
    split; [|intros H; by apply elem_of_nil in H].
    intros ->%list_elem_of_singleton. exfalso.
    rewrite !elem_of_cons, elem_of_nil in Hm.
    destruct Hm as [H|[H|[H|[H|[]]]]]; discriminate H. }
  rewrite checks_feedback, !elem_of_app, !elem_of_opt.
  rewrite Nat.ltb_lt, negb_true_iff, Z.ltb_lt.
  split.
  - intros [H|H]; [|tauto].
    apply elem_of_filler_messages in H as (w & n & ->). exfalso.
    eapply (filler_message_not_fixed w n); [|reflexivity].
    rewrite !elem_of_cons in Hm. rewrite !elem_of_cons. tauto.
  - tauto.
Qed.

(** X14.  Each of the sentence-ending message, the vocabulary tip and the
    duration message is in the feedback exactly when its own condition
    holds; each word of the histogram has its message, with its count, in
    the feedback; and no message occurs twice. *)
Theorem feedback_messages text duration :
  let r := App.generateSuggestions text duration in
  (App.ending_message ∈ App.feedback r ↔ App.test_ending text = false)
  ∧ (App.vocabulary_message ∈ App.feedback r ↔ includes text "good" = true)
  ∧ (App.duration_message ∈ App.feedback r ↔ (duration < 30)%Z)
  ∧ map_Forall (λ w n, App.filler_message w n ∈ App.feedback r)
      (App.fillerStats r)
  ∧ NoDup (App.feedback r).
Proof.
  intros r. unfold r. split_and!.
  - rewrite elem_of_checks by set_solver.
    split; [intros [[H _]|[[_ H]|[[H _]|[H _]]]]; done || discriminate H|].
    intros H. right. by left.
  - rewrite elem_of_checks by set_solver.
    split; [intros [[H _]|[[H _]|[[_ H]|[H _]]]]; done || discriminate H|].
    intros H. right. right. by left.
  - rewrite elem_of_checks by set_solver.
    split; [intros [[H _]|[[H _]|[[H _]|[_ H]]]]; done || discriminate H|].
    intros H. right. right. by right.
  - intros w n Hw.
    unfold App.generateSuggestions in Hw.
    rewrite clamp_stats, fallback_stats, checks_stats in Hw.
    unfold App.filler_detection in Hw. rewrite fold_filler_stats in Hw.
    cbn [App.start App.fillerStats] in Hw. rewrite lookup_empty in Hw.
    destruct (decide _) as [[Hin Hpos]|]; [|done].
    inversion Hw; subst; clear Hw.
    assert (App.filler_message w (App.count_matches text w)
            ∈ App.feedback (App.checks text duration)) as Hbody.
    { rewrite checks_feedback, elem_of_app. left.
      unfold filler_messages. apply list_elem_of_In, in_flat_map.
      exists w. split; [by apply list_elem_of_In|].
      apply Nat.ltb_lt in Hpos. rewrite Hpos. by left. }
    rewrite generateSuggestions_feedback.
    destruct (App.feedback (App.checks text duration));
      [by apply elem_of_nil in Hbody|done].
  - rewrite generateSuggestions_feedback.
    destruct (App.feedback (App.checks text duration)) as [|m l] eqn:Hbody;
      [apply NoDup_singleton|].
    rewrite <- Hbody, checks_feedback. clear Hbody.
    assert (∀ F o1 o2 o3 o4 : list string,
              NoDup F → NoDup o1 → NoDup o2 → NoDup o3 → NoDup o4 →
              (∀ x, x ∈ F → x ∉ o1 ++ o2 ++ o3 ++ o4) →
              (∀ x, x ∈ o1 → x ∉ o2 ++ o3 ++ o4) →
              (∀ x, x ∈ o2 → x ∉ o3 ++ o4) →
              (∀ x, x ∈ o3 → x ∉ o4) →
              NoDup (F ++ o1 ++ o2 ++ o3 ++ o4)) as Happ.
    { intros. repeat (apply NoDup_app; split_and!; try done). }
    assert (∀ b m, NoDup (opt b m)) as Hopt.
    { intros [] ?; [apply NoDup_singleton|constructor]. }
    apply Happ; try apply Hopt.
    + apply filler_messages_NoDup; [apply fillerWords_NoDup|done].
    + intros x (w & n & ->)%elem_of_filler_messages.
      rewrite !elem_of_app, !elem_of_opt.
      intros [[_ H]|[[_ H]|[[_ H]|[_ H]]]];
        (eapply (filler_message_not_fixed w n); [|exact H]); set_solver.
    + intros x [_ ->]%elem_of_opt. rewrite !elem_of_app, !elem_of_opt.
      intros [[_ H]|[[_ H]|[_ H]]]; discriminate H.
    + intros x [_ ->]%elem_of_opt. rewrite !elem_of_app, !elem_of_opt.
      intros [[_ H]|[_ H]]; discriminate H.
    + intros x [_ ->]%elem_of_opt. rewrite !elem_of_opt.
      intros [_ H]; discriminate H.
Qed.
